(** * claude-memory-server: embedding acquisition and similarity ranking

  A shallow embedding of the TypeScript sources

    - embedding-provider.ts  (MemoryEmbeddingCache, BaseEmbeddingProvider)
    - ollama-provider.ts     (OllamaEmbeddingProvider and its coalescer)
    - semantic-search.ts     (SemanticSearchService)

  Conventions of the embedding.

    - Integer-valued JS numbers (sizes, times in ms, retry counts) are [Z];
      a count that the tool schema bounds below by 1 ([limit]) is [nat].
    - Scores and weights are rationals [Q].  Every finite double is a
      rational and doubles compare as their values do, so the filters and the
      sorts are those of the code; sums, products and quotients are taken
      without rounding.  A similarity can also be [NaN] (cosine similarity of
      an all-zero vector), kept as its own constructor.
    - [x || d] on an optional field is written out case by case.
    - A JS [Map] whose iteration order matters is an association list in
      insertion order; a [Map] or [Set] only looked up is a [gmap] / [gset].
    - A promise is its outcome: [Returned v] or [Thrown e].  The callbacks
      [resolve] / [reject] of a queued request are named by a handle, and
      calling them appends to a completion log.
    - External collaborators (SQLite behind [MemoryDatabase], the Ollama
      HTTP client, the cos-similarity package) are taken by their answers. *)

From Stdlib Require Import QArith Qminmax ZArith String Ascii List.
From Stdlib Require Import Permutation Sorted Lia Lqa DecimalString.
From stdpp Require Import gmap strings list fin_maps.

Open Scope Z_scope.

(* ===================================================================== *)
(** ** JavaScript values the sources rely on                              *)
(* ===================================================================== *)

Module Js.

(** [Error] objects.  [TypeError] is what the engine itself throws when a
    property of [undefined] is read. *)
Inductive error : Type :=
| Error (message : string)
| TypeError (message : string).

Definition message (e : error) : string :=
  match e with Error m => m | TypeError m => m end.

(** The settled state of a promise. *)
Inductive outcome (T : Type) : Type :=
| Returned (v : T)
| Thrown (e : error).
Arguments Returned {T} v.
Arguments Thrown {T} e.

(** Truthiness of a string: only the empty string is falsy. *)
Definition truthy_string (s : string) : bool :=
  match s with EmptyString => false | _ => true end.

(** [`${n}`] for an integer-valued number. *)
Definition show_Z (z : Z) : string := NilZero.string_of_int (Z.to_int z).
Definition show_nat (n : nat) : string := NilZero.string_of_uint (Nat.to_uint n).

(** [n || d] for an optional number: [undefined] and [0] are falsy. *)
Definition num_or (n : option Z) (d : Z) : Z :=
  match n with
  | None => d
  | Some v => if v =? 0 then d else v
  end.

(** [Array.prototype.slice(0, end)] for a count [end]. *)
Definition slice0 {A : Type} (l : list A) (e : nat) : list A := firstn e l.

(** [Array.prototype.splice(0, deleteCount)]: the deleted elements and
    what is left in the array.  A negative count deletes nothing. *)
Definition splice0 {A : Type} (l : list A) (deleteCount : Z) : list A * list A :=
  (firstn (Z.to_nat deleteCount) l, skipn (Z.to_nat deleteCount) l).

End Js.

Import Js.

(* ===================================================================== *)
(** ** embedding-provider.ts: MemoryEmbeddingCache                        *)
(* ===================================================================== *)

Module Cache.
Section MemoryEmbeddingCache.

(** The stored value ([number[]] in the declaration). *)
Context {V : Type}.

Record entry : Type := Entry { embedding : V; timestamp : Z }.

(** [Map<string, entry>], in insertion order. *)
Definition jsmap : Type := list (string * entry).

Fixpoint map_get (k : string) (m : jsmap) : option entry :=
  match m with
  | [] => None
  | (k', e) :: m' => if String.eqb k' k then Some e else map_get k m'
  end.

Definition map_delete (k : string) (m : jsmap) : jsmap :=
  List.filter (fun p => negb (String.eqb (fst p) k)) m.

(** [Map.prototype.set]: an existing key keeps its place. *)
Fixpoint map_set (k : string) (e : entry) (m : jsmap) : jsmap :=
  match m with
  | [] => [(k, e)]
  | (k', e') :: m' =>
      if String.eqb k' k then (k, e) :: m' else (k', e') :: map_set k e m'
  end.

Record MemoryEmbeddingCache : Type := Build {
  cache : jsmap;
  maxSize : Z;
  ttl : Z
}.

Definition with_cache (c : MemoryEmbeddingCache) (m : jsmap) : MemoryEmbeddingCache :=
  {| cache := m; maxSize := maxSize c; ttl := ttl c |}.

(** [constructor(maxSize = 1000, ttlMs = 3600000)] *)
Definition new (maxSize ttlMs : option Z) : MemoryEmbeddingCache :=
  {| cache := [];
     maxSize := match maxSize with Some n => n | None => 1000 end;
     ttl := match ttlMs with Some n => n | None => 3600000 end |}.

(** [get(key)]; [now] is [Date.now()].  [None] is [null]. *)
Definition get (c : MemoryEmbeddingCache) (key : string) (now : Z)
  : option V * MemoryEmbeddingCache :=
  match map_get key (cache c) with
  | None => (None, c)
  | Some cached =>
      if now - timestamp cached >? ttl c
      then (None, with_cache c (map_delete key (cache c)))
      else (Some (embedding cached), c)
  end.

(** [set(key, embedding)] *)
Definition set (c : MemoryEmbeddingCache) (key : string) (emb : V) (now : Z)
  : MemoryEmbeddingCache :=
  let m :=
    if Z.of_nat (List.length (cache c)) >=? maxSize c then
      match cache c with
      | (oldestKey, _) :: _ =>
          if truthy_string oldestKey then map_delete oldestKey (cache c)
          else cache c
      | [] => cache c
      end
    else cache c in
  with_cache c (map_set key {| embedding := emb; timestamp := now |} m).

Definition clear (c : MemoryEmbeddingCache) : MemoryEmbeddingCache := with_cache c [].
Definition size (c : MemoryEmbeddingCache) : Z := Z.of_nat (List.length (cache c)).

End MemoryEmbeddingCache.
Arguments entry : clear implicits.
Arguments jsmap : clear implicits.
Arguments MemoryEmbeddingCache : clear implicits.
End Cache.

(* ===================================================================== *)
(** ** embedding-provider.ts: BaseEmbeddingProvider                       *)
(* ===================================================================== *)

Module Base.

(** [number[]] *)
Definition EmbeddingVector : Type := list Q.

Record EmbeddingConfig : Type := {
  provider : string;
  model : string;
  host : option string;
  batchSize : option Z;
  maxRetries : option Z;
  timeoutMs : option Z;
  cacheEnabled : option bool
}.

(** The cache holds whatever [setCachedEmbedding] is handed: a vector, or
    [undefined] ([None]) when an array was read past its end. *)
Definition EmbeddingCache : Type := Cache.MemoryEmbeddingCache (option EmbeddingVector).

(** [constructor]: the cache exists only when [config.cacheEnabled] is truthy. *)
Definition initial_cache (config : EmbeddingConfig) : option EmbeddingCache :=
  match cacheEnabled config with
  | Some true => Some (Cache.new None None)
  | _ => None
  end.

(** [`${provider}:${model || 'default'}:${text}`] *)
Definition getCacheKey (config : EmbeddingConfig) (text : string) : string :=
  provider config +:+ ":" +:+
  (if truthy_string (model config) then model config else "default") +:+ ":" +:+ text.

(** [getCachedEmbedding]: [None] is [null]. *)
Definition getCachedEmbedding (config : EmbeddingConfig) (cache : option EmbeddingCache)
    (text : string) (now : Z)
  : option (option EmbeddingVector) * option EmbeddingCache :=
  match cache with
  | None => (None, None)
  | Some c =>
      let '(r, c') := Cache.get c (getCacheKey config text) now in (r, Some c')
  end.

(** [setCachedEmbedding] *)
Definition setCachedEmbedding (config : EmbeddingConfig) (cache : option EmbeddingCache)
    (text : string) (embedding : option EmbeddingVector) (now : Z)
  : option EmbeddingCache :=
  match cache with
  | None => None
  | Some c => Some (Cache.set c (getCacheKey config text) embedding now)
  end.

(** *** retryWithBackoff

    The wrapped [operation] is a fresh call each time: [operation k] is the
    outcome of its invocation number [k] (from 0).  A run records the final
    outcome, how many times the operation was invoked, and the delays slept. *)

Record run (T : Type) : Type := {
  result : outcome T;
  calls : nat;
  sleeps : list Z
}.
Arguments result {T} r.
Arguments calls {T} r.
Arguments sleeps {T} r.

(** [Math.min(baseDelay * Math.pow(2, attempt - 1), 10000)] *)
Definition backoff (baseDelay attempt : Z) : Z :=
  Z.min (baseDelay * 2 ^ (attempt - 1)) 10000.

(** The [throw] after the loop.  [lastError] is [None] while unassigned, and
    reading [.message] of [undefined] is the engine's [TypeError]. *)
Definition exhausted {T : Type} (maxRetries : Z) (lastError : option error)
  : outcome T :=
  match lastError with
  | Some e =>
      Thrown (Error ("Operation failed after " +:+ show_Z maxRetries +:+
                     " attempts: " +:+ message e))
  | None =>
      Thrown (TypeError "Cannot read properties of undefined (reading 'message')")
  end.

(** The [for] loop, one iteration per unit of fuel. *)
Fixpoint retry_loop {T : Type} (operation : nat -> outcome T)
    (maxRetries baseDelay : Z) (fuel : nat)
    (attempt : Z) (lastError : option error) (ncalls : nat) (slept : list Z)
  : option (run T) :=
  match fuel with
  | O => None
  | S fuel' =>
      if attempt <=? maxRetries then
        match operation ncalls with
        | Returned v =>
            Some {| result := Returned v; calls := S ncalls; sleeps := slept |}
        | Thrown e =>
            if attempt =? maxRetries then
              Some {| result := exhausted maxRetries (Some e);
                      calls := S ncalls; sleeps := slept |}
            else
              retry_loop operation maxRetries baseDelay fuel'
                (attempt + 1) (Some e) (S ncalls)
                (slept ++ [backoff baseDelay attempt])
        end
      else
        Some {| result := exhausted maxRetries lastError;
                calls := ncalls; sleeps := slept |}
  end.

(** [retryWithBackoff(operation, maxRetries = 3, baseDelay = 1000)] *)
Definition retryWithBackoff {T : Type} (fuel : nat) (operation : nat -> outcome T)
    (maxRetries baseDelay : option Z) : option (run T) :=
  let maxRetries := match maxRetries with Some n => n | None => 3 end in
  let baseDelay := match baseDelay with Some n => n | None => 1000 end in
  retry_loop operation maxRetries baseDelay fuel 1 None 0%nat [].

(** Fuel that always suffices: one iteration per attempt and one for the exit. *)
Definition enough_fuel (maxRetries : option Z) : nat :=
  S (Z.to_nat (match maxRetries with Some n => n | None => 3 end)).

End Base.

(* ===================================================================== *)
(** ** ollama-provider.ts: OllamaEmbeddingProvider                        *)
(* ===================================================================== *)

Module Ollama.
Import Base.

(** What [ollama.embed] answers; [embeddings] may be missing. *)
Record EmbedResponse : Type := {
  embeddings : option (list EmbeddingVector)
}.

(** The Ollama client raced against the timeout timer: request number [k]
    with input [texts] settles as [client k texts]. *)
Definition client : Type := nat -> list string -> outcome EmbedResponse.

(** A queued request; [handle] names its [resolve] / [reject] pair. *)
Record PendingRequest : Type := {
  text : string;
  handle : nat
}.

(** One call of [item.resolve(embedding)] or [item.reject(error)]. *)
Inductive completion : Type :=
| Resolved (h : nat) (embedding : option EmbeddingVector)
| Rejected (h : nat) (e : error).

Record OllamaEmbeddingProvider : Type := {
  config : EmbeddingConfig;
  cache : option EmbeddingCache;
  batchQueue : list PendingRequest;
  processingBatch : bool;
  requests : nat            (* calls of [ollama.embed] issued so far *)
}.

(** [constructor(config)] *)
Definition new (cfg : EmbeddingConfig) : OllamaEmbeddingProvider :=
  {| config := cfg; cache := initial_cache cfg; batchQueue := [];
     processingBatch := false; requests := 0 |}.

(** The guard of [generateEmbedding] that routes a request to the coalescer:
    [this.config.batchSize && this.config.batchSize > 1]. *)
Definition usesBatching (cfg : EmbeddingConfig) : bool :=
  match batchSize cfg with
  | Some n => negb (n =? 0) && (n >? 1)
  | None => false
  end.

(** [`Expected ${texts.length} embeddings, got ${response.embeddings?.length || 0}`] *)
Definition mismatch (expected got : nat) : error :=
  Error ("Expected " +:+ show_nat expected +:+ " embeddings, got " +:+ show_nat got).

(** [generateBatchEmbeddingsInternal(texts)], given how the raced request
    settled. *)
Definition generateBatchEmbeddingsInternal (texts : list string)
    (raced : outcome EmbedResponse) : outcome (list EmbeddingVector) :=
  match raced with
  | Thrown e => Thrown e
  | Returned response =>
      match embeddings response with
      | None => Thrown (mismatch (List.length texts) 0)
      | Some vs =>
          if negb (List.length vs =? List.length texts)%nat
          then Thrown (mismatch (List.length texts) (List.length vs))
          else Returned vs
      end
  end.

(** [generateWithBatching]: the push onto the queue. *)
Definition enqueue (p : OllamaEmbeddingProvider) (r : PendingRequest)
  : OllamaEmbeddingProvider :=
  {| config := config p; cache := cache p; batchQueue := batchQueue p ++ [r];
     processingBatch := processingBatch p; requests := requests p |}.

(** *** processBatch

    The method suspends twice ([sleep(50)] and the provider call); each piece
    between suspensions runs without interruption. *)

(** Entry guard: [this.processingBatch || this.batchQueue.length === 0]. *)
Definition processBatch_enters (p : OllamaEmbeddingProvider) : bool :=
  negb (processingBatch p || (List.length (batchQueue p) =? 0)%nat).

(** After the debounce sleep: nothing if the queue is empty, else the batch
    spliced off the head and the provider marked busy. *)
Definition processBatch_dispatch (p : OllamaEmbeddingProvider)
  : option (list PendingRequest * OllamaEmbeddingProvider) :=
  if (List.length (batchQueue p) =? 0)%nat then None
  else
    let batchSize := num_or (batchSize (config p)) 32 in
    let '(currentBatch, rest) := splice0 (batchQueue p) batchSize in
    Some (currentBatch,
          {| config := config p; cache := cache p; batchQueue := rest;
             processingBatch := true; requests := requests p |}).

(** The [forEach] of the [try] block; [now index] is [Date.now()] while the
    element at [index] is handled. *)
Fixpoint resolve_each (cfg : EmbeddingConfig) (embeddings : list EmbeddingVector)
    (now : nat -> Z) (items : list PendingRequest) (index : nat)
    (cache : option EmbeddingCache)
  : option EmbeddingCache * list completion :=
  match items with
  | [] => (cache, [])
  | item :: rest =>
      let embedding := embeddings !! index in
      let cache' := setCachedEmbedding cfg cache (text item) embedding (now index) in
      let '(cache'', log) := resolve_each cfg embeddings now rest (S index) cache' in
      (cache'', Resolved (handle item) embedding :: log)
  end.

(** What a settled batch leaves behind: the provider, the callbacks called in
    order, and whether [setTimeout(() => this.processBatch(), 100)] was armed. *)
Record settled : Type := {
  after : OllamaEmbeddingProvider;
  completions : list completion;
  rescheduled : bool
}.

(** From the return of the provider call to the end of [finally].  [p] is the
    provider as it is when the call settles. *)
Definition processBatch_settle (p : OllamaEmbeddingProvider)
    (currentBatch : list PendingRequest)
    (outcome_ : outcome (list EmbeddingVector)) (now : nat -> Z) : settled :=
  let '(cache', log) :=
    match outcome_ with
    | Returned embeddings =>
        resolve_each (config p) embeddings now currentBatch 0 (cache p)
    | Thrown error =>
        (cache p, List.map (fun item => Rejected (handle item) error) currentBatch)
    end in
  {| after := {| config := config p; cache := cache'; batchQueue := batchQueue p;
                 processingBatch := false; requests := requests p |};
     completions := log;
     rescheduled := negb (List.length (batchQueue p) =? 0)%nat |}.

(** What the rest of the program did to the provider while a call was
    suspended: requests pushed onto the queue, other batches dispatched or
    settled. *)
Definition interference : Type := OllamaEmbeddingProvider -> OllamaEmbeddingProvider.

(** The provider once the request to Ollama has been issued. *)
Definition issued (p : OllamaEmbeddingProvider) : OllamaEmbeddingProvider :=
  {| config := config p; cache := cache p; batchQueue := batchQueue p;
     processingBatch := processingBatch p; requests := S (requests p) |}.

(** One whole run of [processBatch]; [while_asleep] happens during
    [sleep(50)] and [while_calling] during the provider call. *)
Definition processBatch (ollama : client) (now : nat -> Z)
    (while_asleep while_calling : interference)
    (p : OllamaEmbeddingProvider) : settled :=
  if processBatch_enters p then
    let woken := while_asleep p in
    match processBatch_dispatch woken with
    | None => {| after := woken; completions := []; rescheduled := false |}
    | Some (currentBatch, dispatched) =>
        let texts := List.map text currentBatch in
        let embeddings :=
          generateBatchEmbeddingsInternal texts (ollama (requests dispatched) texts) in
        processBatch_settle (while_calling (issued dispatched))
          currentBatch embeddings now
    end
  else {| after := p; completions := []; rescheduled := false |}.

(** The sibling path: one chunk of the public [generateBatchEmbeddings],
    [retryWithBackoff(() => generateBatchEmbeddingsInternal(batch),
    config.maxRetries || 3)], starting at request number [k0]. *)
Definition retried_batch (ollama : client) (cfg : EmbeddingConfig) (k0 : nat)
    (batch : list string) : option (run (list EmbeddingVector)) :=
  let maxRetries := num_or (maxRetries cfg) 3 in
  retryWithBackoff (enough_fuel (Some maxRetries))
    (fun k => generateBatchEmbeddingsInternal batch (ollama (k0 + k)%nat batch))
    (Some maxRetries) None.

End Ollama.

(* ===================================================================== *)
(** ** semantic-search.ts: SemanticSearchService                          *)
(* ===================================================================== *)

Module Search.
Import Base.
Local Open Scope Q_scope.

(** A double that may be [NaN]. *)
Inductive number : Type :=
| NaN
| Fin (q : Q).

(** [x >= t]: false on [NaN]. *)
Definition number_ge (x : number) (t : Q) : bool :=
  match x with
  | NaN => false
  | Fin q => Qle_bool t q
  end.

(** [b - a] *)
Definition number_sub (b a : number) : number :=
  match b, a with
  | Fin y, Fin x => Fin (y - x)
  | _, _ => NaN
  end.

(** [v > 0] on what a comparator returned; [NaN] is not. *)
Definition positive (v : number) : bool :=
  match v with
  | NaN => false
  | Fin q => negb (Qle_bool q 0)
  end.

(** [Array.prototype.sort(compare)]: the engine's sort is stable, so it is
    fixed by the comparator alone; written here as the stable insertion sort.
    [x], which stood before every element of [l], moves behind [y] only when
    [compare(x, y) > 0]. *)
Fixpoint sort_insert {A : Type} (compare : A -> A -> number) (x : A) (l : list A)
  : list A :=
  match l with
  | [] => [x]
  | y :: l' =>
      if positive (compare x y) then y :: sort_insert compare x l'
      else x :: y :: l'
  end.

Fixpoint sort {A : Type} (compare : A -> A -> number) (l : list A) : list A :=
  match l with
  | [] => []
  | x :: l' => sort_insert compare x (sort compare l')
  end.

(** [String.prototype.split(sep)] for a one-character separator. *)
Fixpoint split (sep : ascii) (s : string) : list string :=
  match s with
  | EmptyString => [EmptyString]
  | String c s' =>
      if Ascii.eqb c sep then EmptyString :: split sep s'
      else
        match split sep s' with
        | [] => [String c EmptyString]
        | h :: t => String c h :: t
        end
  end.

(** [new Set(ids)] read back with [Array.from]: first occurrences, in order. *)
Fixpoint set_of (seen : gset string) (ids : list string) : list string :=
  match ids with
  | [] => []
  | x :: rest =>
      if bool_decide (x ∈ seen) then set_of seen rest
      else x :: set_of ({[x]} ∪ seen) rest
  end.

(** database.ts: a row of [memories]. *)
Record Memory : Type := {
  id : string;
  content : string;
  category : string;
  metadata : string;
  created_at : Z;
  updated_at : Z;
  relevance_score : Q
}.

(** An element of what [getMemoriesWithEmbeddings] returns. *)
Record MemoryWithEmbedding : Type := {
  row_memory : Memory;
  row_embedding : EmbeddingVector
}.

(** The queries of [MemoryDatabase] the service issues, by their answers.
    The provider and model arguments are [name.split(':')[0]] and [[1]],
    which may be [undefined]. *)
Record MemoryDatabase : Type := {
  getEmbedding : string -> option string -> option string -> option EmbeddingVector;
  getMemoriesWithEmbeddings : option string -> option string -> list MemoryWithEmbedding;
  searchMemories : string -> nat -> list Memory
}.

(** The [EmbeddingProvider] interface, as far as the service uses it. *)
Record EmbeddingProvider : Type := {
  name : string;
  dimensions : Z;
  generateEmbedding : string -> outcome EmbeddingVector
}.

Record SemanticSearchResult : Type := {
  memory : Memory;
  similarity : number;
  embedding : EmbeddingVector
}.

Record SemanticSearchOptions : Type := {
  limit : option nat;
  minSimilarity : option Q;
  category_filter : option string;       (* [category] *)
  includeEmbeddings : option bool
}.

Record HybridSearchOptions : Type := {
  base_options : SemanticSearchOptions;  (* [extends SemanticSearchOptions] *)
  textWeight : option Q;
  semanticWeight : option Q;
  boostRecentMemories : option bool
}.

Record HybridSearchResult : Type := {
  base_result : SemanticSearchResult;    (* [extends SemanticSearchResult] *)
  textScore : Q;
  combinedScore : Q
}.

Record Cluster : Type := {
  cluster : list SemanticSearchResult;
  avgSimilarity : Q
}.

(** A destructuring default [x = d]: only [undefined] takes it. *)
Definition default {A : Type} (d : A) (x : option A) : A :=
  match x with Some v => v | None => d end.

Definition provider_part (p : EmbeddingProvider) (k : nat) : option string :=
  split ":" (name p) !! k.

(** [if (category) filtered = all.filter(item => item.memory.category === category)] *)
Definition filter_category (cat : option string) (rows : list MemoryWithEmbedding)
  : list MemoryWithEmbedding :=
  match cat with
  | Some c =>
      if truthy_string c
      then List.filter (fun item => String.eqb (category (row_memory item)) c) rows
      else rows
  | None => rows
  end.

(** [(a, b) => b.similarity - a.similarity] *)
Definition by_similarity (a b : SemanticSearchResult) : number :=
  number_sub (similarity b) (similarity a).

Section Service.

(** The default export of the cos-similarity package. *)
Variable cos_similarity : EmbeddingVector -> EmbeddingVector -> number.

Variable db : MemoryDatabase.
Variable embeddingProvider : EmbeddingProvider.

(** [rows.map(item => ({ memory, similarity: similarity(source, item.embedding),
    embedding }))]: the candidates scored, in the order supplied. *)
Definition scored (source : EmbeddingVector) (keepEmbedding : bool)
    (rows : list MemoryWithEmbedding) : list SemanticSearchResult :=
  List.map
    (fun item =>
       {| memory := row_memory item;
          similarity := cos_similarity source (row_embedding item);
          embedding := if keepEmbedding then row_embedding item else [] |})
    rows.

(** The [map / filter / sort / slice] chain shared by [searchSimilar] and
    [findSimilarToMemory]. *)
Definition rank (source : EmbeddingVector) (keepEmbedding : bool)
    (minSimilarity : Q) (limit : nat) (rows : list MemoryWithEmbedding)
  : list SemanticSearchResult :=
  slice0
    (sort by_similarity
       (List.filter (fun result => number_ge (similarity result) minSimilarity)
          (scored source keepEmbedding rows)))
    limit.

Definition searchSimilar (query : string) (options : SemanticSearchOptions)
  : outcome (list SemanticSearchResult) :=
  let limit := default 10%nat (limit options) in
  let minSimilarity := default (7 # 10) (minSimilarity options) in
  let includeEmbeddings := default false (includeEmbeddings options) in
  match generateEmbedding embeddingProvider query with
  | Thrown e => Thrown e
  | Returned queryEmbedding =>
      let memoriesWithEmbeddings :=
        getMemoriesWithEmbeddings db
          (provider_part embeddingProvider 0) (provider_part embeddingProvider 1) in
      let filteredMemories :=
        filter_category (category_filter options) memoriesWithEmbeddings in
      Returned (rank queryEmbedding includeEmbeddings minSimilarity limit filteredMemories)
  end.

Definition findSimilarToMemory (memoryId : string) (options : SemanticSearchOptions)
  : outcome (list SemanticSearchResult) :=
  let limit := default 5%nat (limit options) in
  let minSimilarity := default (7 # 10) (minSimilarity options) in
  match getEmbedding db memoryId
          (provider_part embeddingProvider 0) (provider_part embeddingProvider 1) with
  | None => Thrown (Error ("No embedding found for memory " +:+ memoryId))
  | Some sourceEmbedding =>
      let memoriesWithEmbeddings :=
        List.filter (fun item => negb (String.eqb (id (row_memory item)) memoryId))
          (getMemoriesWithEmbeddings db
             (provider_part embeddingProvider 0) (provider_part embeddingProvider 1)) in
      let filteredMemories :=
        filter_category (category_filter options) memoriesWithEmbeddings in
      Returned (rank sourceEmbedding true minSimilarity limit filteredMemories)
  end.

(** *** hybridSearch *)

(** [Math.max(0, (textResults.length - index) / textResults.length)] *)
Definition normalizedScore (len index : nat) : Q :=
  Qmax 0 (inject_Z (Z.of_nat len - Z.of_nat index)%Z / inject_Z (Z.of_nat len)).

(** [semanticResults.forEach(result => semanticScoreMap.set(...))] *)
Definition semanticScores (results : list SemanticSearchResult) : gmap string number :=
  fold_left (fun m result => <[id (memory result) := similarity result]> m) results ∅.

(** [textResults.forEach((memory, index) => textScoreMap.set(...))] *)
Fixpoint textScores (len index : nat) (results : list Memory) (m : gmap string Q)
  : gmap string Q :=
  match results with
  | [] => m
  | memory :: rest =>
      textScores len (S index) rest (<[id memory := normalizedScore len index]> m)
  end.

(** [map.get(memoryId) || 0]: a missing entry, [0] and [NaN] all give [0]. *)
Definition number_or_0 (x : option number) : Q :=
  match x with
  | Some (Fin q) => if Qeq_bool q 0 then 0 else q
  | _ => 0
  end.

(** Stands for [undefined] in [semanticResult?.memory || textMemory!]; every id
    of [allMemoryIds] comes from one of the two lists, so it is never used. *)
Definition no_memory : Memory :=
  {| id := ""; content := ""; category := ""; metadata := "";
     created_at := 0%Z; updated_at := 0%Z; relevance_score := 0 |}.

Definition hybrid_entry (semanticResults : list SemanticSearchResult)
    (textResults : list Memory)
    (semanticScoreMap : gmap string number) (textScoreMap : gmap string Q)
    (textWeight semanticWeight : Q) (boostRecentMemories includeEmbeddings : bool)
    (now : Z) (memoryId : string) : HybridSearchResult :=
  let semanticResult :=
    List.find (fun r => String.eqb (id (memory r)) memoryId) semanticResults in
  let textMemory := List.find (fun r => String.eqb (id r) memoryId) textResults in
  let memory_ :=
    match semanticResult with
    | Some r => memory r
    | None => default no_memory textMemory
    end in
  let semanticScore := number_or_0 (semanticScoreMap !! memoryId) in
  let textScore_ := number_or_0 (Fin <$> textScoreMap !! memoryId) in
  let combined := semanticScore * semanticWeight + textScore_ * textWeight in
  let combined :=
    if boostRecentMemories then
      let daysSinceUpdate :=
        inject_Z (now - updated_at memory_)%Z / inject_Z (1000 * 60 * 60 * 24)%Z in
      let recencyBoost := Qmax 0 (1 - daysSinceUpdate / 30) in
      combined + recencyBoost * (1 # 10)
    else combined in
  {| base_result :=
       {| memory := memory_;
          similarity := Fin semanticScore;
          embedding :=
            if includeEmbeddings
            then match semanticResult with Some r => embedding r | None => [] end
            else [] |};
     textScore := textScore_;
     combinedScore := combined |}.

(** [(a, b) => b.combinedScore - a.combinedScore] *)
Definition by_combinedScore (a b : HybridSearchResult) : number :=
  Fin (combinedScore b - combinedScore a).

(** [now] is [Date.now()]. *)
Definition hybridSearch (query : string) (options : HybridSearchOptions) (now : Z)
  : outcome (list HybridSearchResult) :=
  let limit := default 10%nat (limit (base_options options)) in
  let minSimilarity := default (5 # 10) (minSimilarity (base_options options)) in
  let category := category_filter (base_options options) in
  let textWeight := default (3 # 10) (textWeight options) in
  let semanticWeight := default (7 # 10) (semanticWeight options) in
  let boostRecentMemories := default true (boostRecentMemories options) in
  let includeEmbeddings := default false (includeEmbeddings (base_options options)) in
  match searchSimilar query
          {| limit := Some (limit * 2)%nat;
             minSimilarity := Some (minSimilarity * (8 # 10));
             category_filter := category;
             includeEmbeddings := Some includeEmbeddings |} with
  | Thrown e => Thrown e
  | Returned semanticResults =>
      let textResults := searchMemories db query (limit * 2)%nat in
      let semanticScoreMap := semanticScores semanticResults in
      let textScoreMap := textScores (List.length textResults) 0 textResults ∅ in
      let allMemoryIds :=
        set_of ∅ (List.map (fun r => id (memory r)) semanticResults
                  ++ List.map id textResults) in
      Returned
        (slice0
           (sort by_combinedScore
              (List.filter (fun result => negb (Qle_bool (combinedScore result) (1 # 10)))
                 (List.map
                    (hybrid_entry semanticResults textResults
                       semanticScoreMap textScoreMap textWeight semanticWeight
                       boostRecentMemories includeEmbeddings now)
                    allMemoryIds)))
           limit)
  end.

(** *** clusterMemories *)

(** The inner [for (const other of memoriesWithEmbeddings)]. *)
Fixpoint cluster_scan (item : MemoryWithEmbedding) (threshold : Q)
    (others : list MemoryWithEmbedding)
    (processed : gset string) (members : list SemanticSearchResult)
    (totalSimilarity : Q)
  : gset string * list SemanticSearchResult * Q :=
  match others with
  | [] => (processed, members, totalSimilarity)
  | other :: rest =>
      if String.eqb (id (row_memory other)) (id (row_memory item))
         || bool_decide (id (row_memory other) ∈ processed)
      then cluster_scan item threshold rest processed members totalSimilarity
      else
        match cos_similarity (row_embedding item) (row_embedding other) with
        | Fin sim =>
            if Qle_bool threshold sim then
              cluster_scan item threshold rest
                ({[id (row_memory other)]} ∪ processed)
                (members ++ [{| memory := row_memory other;
                                similarity := Fin sim;
                                embedding := row_embedding other |}])
                (totalSimilarity + sim)
            else cluster_scan item threshold rest processed members totalSimilarity
        | NaN => cluster_scan item threshold rest processed members totalSimilarity
        end
  end.

(** The outer [for (const item of memoriesWithEmbeddings)]. *)
Fixpoint cluster_loop (all : list MemoryWithEmbedding) (threshold : Q)
    (minClusterSize : Z) (items : list MemoryWithEmbedding)
    (processed : gset string) (clusters : list Cluster) : list Cluster :=
  match items with
  | [] => clusters
  | item :: rest =>
      if bool_decide (id (row_memory item) ∈ processed)
      then cluster_loop all threshold minClusterSize rest processed clusters
      else
        let seed := {| memory := row_memory item; similarity := Fin 1;
                       embedding := row_embedding item |} in
        let '(processed', members, totalSimilarity) :=
          cluster_scan item threshold all processed [seed] 1 in
        let clusters' :=
          if (Z.of_nat (List.length members) >=? minClusterSize)%Z
          then clusters ++
               [{| cluster := members;
                   avgSimilarity :=
                     totalSimilarity / inject_Z (Z.of_nat (List.length members)) |}]
          else clusters in
        cluster_loop all threshold minClusterSize rest
          ({[id (row_memory item)]} ∪ processed') clusters'
  end.

(** [(a, b) => b.avgSimilarity - a.avgSimilarity] *)
Definition by_avgSimilarity (a b : Cluster) : number :=
  Fin (avgSimilarity b - avgSimilarity a).

(** [clusterMemories(threshold = 0.8, minClusterSize = 2)] *)
Definition clusterMemories (threshold : option Q) (minClusterSize : option Z)
  : list Cluster :=
  let threshold := default (8 # 10) threshold in
  let minClusterSize := default 2%Z minClusterSize in
  let memoriesWithEmbeddings :=
    getMemoriesWithEmbeddings db
      (provider_part embeddingProvider 0) (provider_part embeddingProvider 1) in
  sort by_avgSimilarity
    (cluster_loop memoriesWithEmbeddings threshold minClusterSize
       memoriesWithEmbeddings ∅ []).

End Service.
End Search.

(* ===================================================================== *)
(** ** Notions used to state the properties, and sample runs             *)
(* ===================================================================== *)

(** Whether a name holds the separator of cache keys. *)
Fixpoint has_colon (s : string) : bool :=
  match s with
  | EmptyString => false
  | String c s' => Ascii.eqb c ":" || has_colon s'
  end.

(** The similarity of a result as a rational ([0] for [NaN]). *)
Definition similarity_value (r : Search.SemanticSearchResult) : Q :=
  match Search.similarity r with
  | Search.Fin q => q
  | Search.NaN => 0%Q
  end.

(** The results whose similarity is the number [q]: a class of ties. *)
Definition tie (q : Q) (r : Search.SemanticSearchResult) : bool :=
  match Search.similarity r with
  | Search.Fin x => Qeq_bool x q
  | Search.NaN => false
  end.

(** The database with one memory taken out of the candidates. *)
Definition without (memoryId : string) (db : Search.MemoryDatabase)
  : Search.MemoryDatabase :=
  {| Search.getEmbedding := Search.getEmbedding db;
     Search.getMemoriesWithEmbeddings := fun provider model =>
       List.filter
         (fun item => negb (String.eqb (Search.id (Search.row_memory item)) memoryId))
         (Search.getMemoriesWithEmbeddings db provider model);
     Search.searchMemories := Search.searchMemories db |}.

(** The provider, embedding every query as the vector [v]. *)
Definition answering (v : Base.EmbeddingVector) (p : Search.EmbeddingProvider)
  : Search.EmbeddingProvider :=
  {| Search.name := Search.name p;
     Search.dimensions := Search.dimensions p;
     Search.generateEmbedding := fun _ => Returned v |}.

(** The record ids of a cluster, and of a list of clusters. *)
Definition member_ids (c : Search.Cluster) : list string :=
  List.map (fun r => Search.id (Search.memory r)) (Search.cluster c).

Definition all_member_ids (cs : list Search.Cluster) : list string :=
  flat_map member_ids cs.

(** Out of [len] lexical ranks, how many score above the [0.1] cut of
    [hybridSearch]: the ranks [i] with [(len - i) / len > 0.1], that is
    [10 i < 9 len]. *)
Definition above_cut (len : nat) : nat := ((9 * len + 9) / 10)%nat.

(** The record id of a hybrid result. *)
Definition result_id (r : Search.HybridSearchResult) : string :=
  Search.id (Search.memory (Search.base_result r)).

(** The sum of the similarities recorded in the members. *)
Definition total_similarity (members : list Search.SemanticSearchResult) : Q :=
  fold_right (fun r acc => (similarity_value r + acc)%Q) 0%Q members.

(** Descending by a rational key. *)
Definition descending {A : Type} (key : A -> Q) (a b : A) : Prop :=
  (key b <= key a)%Q.

(** A result whose similarity is a number. *)
Definition finite (r : Search.SemanticSearchResult) : Prop :=
  exists q, Search.similarity r = Search.Fin q.

(** A member that joined a cluster through the threshold test. *)
Definition joined (threshold : Q) (r : Search.SemanticSearchResult) : Prop :=
  exists q, Search.similarity r = Search.Fin q /\ (threshold <= q)%Q.

(** A cluster as [clusterMemories] builds it: big enough, a seed of
    similarity [1.0] followed by joined members, and the mean of the
    recorded similarities as its average. *)
Definition well_formed (threshold : Q) (minClusterSize : Z) (c : Search.Cluster)
  : Prop :=
  minClusterSize <= Z.of_nat (List.length (Search.cluster c))
  /\ (exists seed rest,
        Search.cluster c = seed :: rest
        /\ Search.similarity seed = Search.Fin 1
        /\ Forall (joined threshold) rest)
  /\ (Search.avgSimilarity c ==
      total_similarity (Search.cluster c)
      / inject_Z (Z.of_nat (List.length (Search.cluster c))))%Q.

Module Scenario.
Import Base Ollama.

Definition ollama_config (model_ : string) (batchSize_ : option Z)
    (cacheEnabled_ : option bool) : EmbeddingConfig :=
  {| provider := "ollama"; model := model_; host := None;
     batchSize := batchSize_; maxRetries := Some 3; timeoutMs := None;
     cacheEnabled := cacheEnabled_ |}.

(** [OllamaEmbeddingProvider.createBalanced()] *)
Definition balanced : EmbeddingConfig :=
  {| provider := "ollama"; model := "nomic-embed-text"; host := None;
     batchSize := Some 32; maxRetries := Some 3; timeoutMs := Some 20000;
     cacheEnabled := Some true |}.

(** A batching provider constructed without [cacheEnabled]. *)
Definition uncached : EmbeddingConfig := ollama_config "nomic-embed-text" (Some 32) None.

(** A client that answers every text with the vector [[1]]. *)
Definition steady : client :=
  fun _ texts => Returned {| embeddings := Some (List.map (fun _ => [1%Q]) texts) |}.

(** A client whose first request fails and which is [steady] afterwards. *)
Definition flaky : client :=
  fun k texts =>
    match k with
    | O => Thrown (Error "fetch failed")
    | S _ => steady k texts
    end.

(** A client that always answers with a single vector. *)
Definition short : client :=
  fun _ _ => Returned {| embeddings := Some [[1%Q]] |}.

Definition queued (cfg : EmbeddingConfig) (texts : list string) : OllamaEmbeddingProvider :=
  fold_left (fun p '(h, t) => enqueue p {| text := t; handle := h |})
    (combine (seq 0 (List.length texts)) texts) (Ollama.new cfg).

Definition at_5000 : nat -> Z := fun _ => 5000.

(** Nothing else runs while the call is suspended. *)
Definition undisturbed : interference := fun p => p.

(** Another caller asks for ["world"] during the debounce sleep. *)
Definition world_arrives : interference :=
  fun p => enqueue p {| text := "world"; handle := 1 |}.

(** A default cache holding one vector stored at time 0. *)
Definition warm : EmbeddingCache :=
  Cache.set (Cache.new None None) (getCacheKey balanced "hello") (Some [1%Q]) 0.

(** A stand-in for cosine similarity on one-component vectors: [0.95] between
    equal components, [0.1] between different ones, [NaN] otherwise. *)
Definition same_direction (a b : EmbeddingVector) : Search.number :=
  match a, b with
  | [x], [y] => Search.Fin (if Qeq_bool x y then 95 # 100 else 1 # 10)%Q
  | _, _ => Search.NaN
  end.

Definition note (i : string) (updated : Z) : Search.Memory :=
  {| Search.id := i; Search.content := i; Search.category := "facts";
     Search.metadata := "{}"; Search.created_at := 0; Search.updated_at := updated;
     Search.relevance_score := 1%Q |}.

Definition stored (i : string) (updated : Z) (v : EmbeddingVector)
  : Search.MemoryWithEmbedding :=
  {| Search.row_memory := note i updated; Search.row_embedding := v |}.

(** Four records pointing the same way and one apart, newest first. *)
Definition five_rows : list Search.MemoryWithEmbedding :=
  [stored "m1" 50 [1%Q]; stored "m2" 40 [1%Q]; stored "m3" 30 [2%Q];
   stored "m4" 20 [1%Q]; stored "m5" 10 [1%Q]].

(** A database holding [five_rows], whose full-text index ranks [lexical]. *)
Definition five (lexical : list string) : Search.MemoryDatabase :=
  {| Search.getEmbedding := fun memoryId _ _ =>
       Search.row_embedding <$>
         List.find (fun r => String.eqb (Search.id (Search.row_memory r)) memoryId)
           five_rows;
     Search.getMemoriesWithEmbeddings := fun _ _ => five_rows;
     Search.searchMemories := fun _ limit =>
       take limit (List.map (fun i => note i 0) lexical) |}.

Definition nomic : Search.EmbeddingProvider :=
  {| Search.name := "ollama:nomic-embed-text"; Search.dimensions := 768;
     Search.generateEmbedding := fun _ => Returned [1%Q] |}.

Definition plain (limit_ : option nat) (minSimilarity_ : option Q)
  : Search.SemanticSearchOptions :=
  {| Search.limit := limit_; Search.minSimilarity := minSimilarity_;
     Search.category_filter := None; Search.includeEmbeddings := None |}.

(** [{ semanticWeight: 0, textWeight: 1, boostRecentMemories: false }] on top
    of the given options. *)
Definition lexical_only (options : Search.SemanticSearchOptions)
  : Search.HybridSearchOptions :=
  {| Search.base_options := options; Search.textWeight := Some 1%Q;
     Search.semanticWeight := Some 0%Q; Search.boostRecentMemories := Some false |}.

End Scenario.

(* ===================================================================== *)
(** ** ollama-provider.ts: the public entry points                        *)
(* ===================================================================== *)

Module Entry.
Import Base Ollama.

(** [get name()]: [`ollama:${this.config.model}`] *)
Definition name (p : OllamaEmbeddingProvider) : string :=
  "ollama:" +:+ model (config p).

(** [generateSingleEmbedding(text)], given how the raced request settled. *)
Definition generateSingleEmbedding (raced : outcome EmbedResponse)
  : outcome EmbeddingVector :=
  match raced with
  | Thrown e => Thrown e
  | Returned response =>
      match embeddings response with
      | None => Thrown (Error "No embeddings returned from Ollama")
      | Some [] => Thrown (Error "No embeddings returned from Ollama")
      | Some (first :: _) => Returned first
      end
  end.

(** What [generateEmbedding] hands back: a settled promise, or the promise of
    [generateWithBatching], settled later through the callbacks [h]. *)
Inductive reply : Type :=
| Settled (o : outcome EmbeddingVector)
| Pending (h : nat).

Definition set_cache (p : OllamaEmbeddingProvider) (c : option EmbeddingCache)
  : OllamaEmbeddingProvider :=
  {| config := config p; cache := c; batchQueue := batchQueue p;
     processingBatch := processingBatch p; requests := requests p |}.

Definition add_requests (p : OllamaEmbeddingProvider) (n : nat)
  : OllamaEmbeddingProvider :=
  {| config := config p; cache := cache p; batchQueue := batchQueue p;
     processingBatch := processingBatch p; requests := (requests p + n)%nat |}.

(** [generateEmbedding(text)].  [now] is [Date.now()] at the cache lookup and
    [later] at the cache write; [h] names the callbacks of the promise made
    when the request is queued; a single text is a request with one input.
    [None] only if the retry loop is given too little fuel. *)
Definition generateEmbedding (ollama : client) (now later : Z) (h : nat)
    (p : OllamaEmbeddingProvider) (text : string)
  : option (reply * OllamaEmbeddingProvider) :=
  let '(cached, cache') := getCachedEmbedding (config p) (cache p) text now in
  let p := set_cache p cache' in
  match cached with
  | Some (Some vector) => Some (Settled (Returned vector), p)
  | _ =>
      if usesBatching (config p) then
        Some (Pending h, enqueue p {| text := text; handle := h |})
      else
        let maxRetries := num_or (maxRetries (config p)) 3 in
        match retryWithBackoff (enough_fuel (Some maxRetries))
                (fun k => generateSingleEmbedding (ollama (requests p + k)%nat [text]))
                (Some maxRetries) None with
        | None => None
        | Some r =>
            let p := add_requests p (calls r) in
            match result r with
            | Returned embedding =>
                Some (Settled (Returned embedding),
                      set_cache p
                        (setCachedEmbedding (config p) (cache p) text
                           (Some embedding) later))
            | Thrown e => Some (Settled (Thrown e), p)
            end
        end
  end.

(** [Array.prototype.slice(start, end)], negative indices counting from the
    end. *)
Definition slice {A : Type} (l : list A) (start end_ : Z) : list A :=
  let len := Z.of_nat (List.length l) in
  let from := if start <? 0 then Z.max (len + start) 0 else Z.min start len in
  let to := if end_ <? 0 then Z.max (len + end_) 0 else Z.min end_ len in
  take (Z.to_nat (to - from)) (drop (Z.to_nat from) l).

(** The [for (let i = 0; i < texts.length; i += batchSize)] of
    [generateBatchEmbeddings], one iteration per unit of fuel; [issued] counts
    the requests sent so far. *)
Fixpoint batches_loop (ollama : client) (cfg : EmbeddingConfig) (texts : list string)
    (batchSize : Z) (fuel : nat) (i : Z) (issued : nat)
    (results : list EmbeddingVector)
  : option (outcome (list EmbeddingVector) * nat) :=
  match fuel with
  | O => None
  | S fuel' =>
      if i <? Z.of_nat (List.length texts) then
        let batch := slice texts i (i + batchSize) in
        match retried_batch ollama cfg issued batch with
        | None => None
        | Some r =>
            match result r with
            | Returned batchResults =>
                batches_loop ollama cfg texts batchSize fuel'
                  (i + batchSize) (issued + calls r)%nat (results ++ batchResults)
            | Thrown e => Some (Thrown e, (issued + calls r)%nat)
            end
        end
      else Some (Returned results, issued)
  end.

(** [generateBatchEmbeddings(texts)] *)
Definition generateBatchEmbeddings (ollama : client) (fuel : nat)
    (p : OllamaEmbeddingProvider) (texts : list string)
  : option (outcome (list EmbeddingVector) * OllamaEmbeddingProvider) :=
  let batchSize := num_or (batchSize (config p)) 32 in
  match batches_loop ollama (config p) texts batchSize fuel 0 (requests p) [] with
  | None => None
  | Some (o, issued) =>
      Some (o, {| config := config p; cache := cache p; batchQueue := batchQueue p;
                  processingBatch := processingBatch p; requests := issued |})
  end.

(** [processBatch] and the runs its [finally] block arms with [setTimeout]
    while requests remain queued, with nothing else scheduled in between;
    one run per unit of fuel. *)
Fixpoint drain (ollama : client) (now : nat -> Z) (fuel : nat)
    (p : OllamaEmbeddingProvider) : OllamaEmbeddingProvider * list completion :=
  match fuel with
  | O => (p, [])
  | S fuel' =>
      let s := processBatch ollama now (fun q => q) (fun q => q) p in
      if rescheduled s then
        let '(p', log) := drain ollama now fuel' (after s) in
        (p', completions s ++ log)
      else (after s, completions s)
  end.

End Entry.

(** An operation that throws once and returns from then on. *)
Definition flaky_operation_ (k : nat) : outcome nat :=
  match k with
  | O => Thrown (Error "fetch failed")
  | S _ => Returned k
  end.

(** The handle a callback was called on. *)
Definition settled_handle (c : Ollama.completion) : nat :=
  match c with
  | Ollama.Resolved h _ => h
  | Ollama.Rejected h _ => h
  end.

(** The keys of a cache, oldest first. *)
Definition cache_keys {V : Type} (c : Cache.MemoryEmbeddingCache V) : list string :=
  List.map fst (Cache.cache c).

(** The cache after a series of [set(key, embedding)] calls, each with its
    [Date.now()]. *)
Definition set_all {V : Type} (c : Cache.MemoryEmbeddingCache V)
    (writes : list (string * V * Z)) : Cache.MemoryEmbeddingCache V :=
  fold_left (fun c '(key, emb, now) => Cache.set c key emb now) writes c.

(** The keys are distinct and none is empty, and there are at most [maxSize]
    of them. *)
Definition within_capacity {V : Type} (c : Cache.MemoryEmbeddingCache V) : Prop :=
  NoDup (cache_keys c)
  /\ Forall (fun k => truthy_string k = true) (cache_keys c)
  /\ Cache.size c <= Cache.maxSize c.

(** The delays [retryWithBackoff] sleeps before attempts [2 .. n + 1]. *)
Definition delays (baseDelay : Z) (n : nat) : list Z :=
  List.map (fun k => Base.backoff baseDelay (Z.of_nat (S k))) (seq 0 n).

(** A list cut into consecutive chunks of [b] elements, the last one
    possibly shorter. *)
Inductive chunked {A : Type} (b : nat) : list A -> list (list A) -> Prop :=
| chunked_nil : chunked b [] []
| chunked_cons (l : list A) (cs : list (list A)) :
    l <> [] -> chunked b (drop b l) cs -> chunked b l (take b l :: cs).

(** A chunk of texts answered by a response of as many vectors. *)
Definition answered (ollama : Ollama.client) (chunk : list string)
    (response : list Base.EmbeddingVector) : Prop :=
  List.length response = List.length chunk
  /\ exists k,
       Ollama.generateBatchEmbeddingsInternal chunk (ollama k chunk) = Returned response.

(** A result made from the stored row [other] and scored against the vector
    of the row [item]. *)
Definition scored_against
    (cos_similarity : Base.EmbeddingVector -> Base.EmbeddingVector -> Search.number)
    (rows : list Search.MemoryWithEmbedding) (item : Search.MemoryWithEmbedding)
    (r : Search.SemanticSearchResult) : Prop :=
  exists other,
    In other rows
    /\ Search.memory r = Search.row_memory other
    /\ Search.embedding r = Search.row_embedding other
    /\ Search.similarity r
       = cos_similarity (Search.row_embedding item) (Search.row_embedding other).

(** A cluster grown from a stored row: the row itself first, then rows scored
    against it. *)
Definition seeded
    (cos_similarity : Base.EmbeddingVector -> Base.EmbeddingVector -> Search.number)
    (rows : list Search.MemoryWithEmbedding) (c : Search.Cluster) : Prop :=
  exists item rest,
    In item rows
    /\ Search.cluster c
       = {| Search.memory := Search.row_memory item;
            Search.similarity := Search.Fin 1;
            Search.embedding := Search.row_embedding item |} :: rest
    /\ Forall (scored_against cos_similarity rows item) rest.

(** [Math.ceil(n / b)] for counts. *)
Definition ceil_div (n b : nat) : nat := ((n + b - 1) / b)%nat.

(* ===================================================================== *)
(** * Properties                                                          *)
(* ===================================================================== *)

(** ** MemoryEmbeddingCache *)

Section CacheFacts.
Context {V : Type}.
Implicit Types (m : Cache.jsmap V) (c : Cache.MemoryEmbeddingCache V).

Lemma map_get_delete_same k m : Cache.map_get k (Cache.map_delete k m) = None.
Proof.
  induction m as [|[k' e] m IH]; simpl; [reflexivity|].
  destruct (String.eqb k' k) eqn:E; simpl; [exact IH|].
  now rewrite E.
Qed.

Lemma map_get_set_same k e m : Cache.map_get k (Cache.map_set k e m) = Some e.
Proof.
  induction m as [|[k' e'] m IH]; simpl.
  - now rewrite String.eqb_refl.
  - destruct (String.eqb k' k) eqn:E; simpl.
    + now rewrite String.eqb_refl.
    + now rewrite E.
Qed.

Lemma map_get_set_other k k' e m :
  k <> k' -> Cache.map_get k' (Cache.map_set k e m) = Cache.map_get k' m.
Proof.
  intros Hne. induction m as [|[k0 e0] m IH]; simpl.
  - destruct (String.eqb k k') eqn:E; [|reflexivity].
    apply String.eqb_eq in E. contradiction.
  - destruct (String.eqb k0 k) eqn:E; simpl.
    + apply String.eqb_eq in E. subst k0.
      destruct (String.eqb k k') eqn:E'; [|reflexivity].
      apply String.eqb_eq in E'. contradiction.
    + destruct (String.eqb k0 k'); [reflexivity | exact IH].
Qed.

Lemma map_get_delete_other k k' m :
  k <> k' -> Cache.map_get k' (Cache.map_delete k m) = Cache.map_get k' m.
Proof.
  intros Hne. induction m as [|[k0 e] m IH]; simpl; [reflexivity|].
  destruct (String.eqb k0 k) eqn:E; simpl.
  - apply String.eqb_eq in E. subst k0.
    destruct (String.eqb k k') eqn:E'; [|exact IH].
    apply String.eqb_eq in E'. contradiction.
  - destruct (String.eqb k0 k'); [reflexivity | exact IH].
Qed.

Lemma map_get_delete_Some k k' m e :
  Cache.map_get k' (Cache.map_delete k m) = Some e -> Cache.map_get k' m = Some e.
Proof.
  destruct (String.eqb_spec k k') as [->|Hne].
  - now rewrite map_get_delete_same.
  - now rewrite map_get_delete_other.
Qed.

(** [set] under one key gives no other key a new entry: what another key
    reads afterwards, it read before. *)
Lemma set_keeps_others c key key' emb now e :
  key <> key' ->
  Cache.map_get key' (Cache.cache (Cache.set c key emb now)) = Some e ->
  Cache.map_get key' (Cache.cache c) = Some e.
Proof.
  intros Hne. unfold Cache.set. simpl. rewrite map_get_set_other by assumption.
  destruct (Z.of_nat (List.length (Cache.cache c)) >=? Cache.maxSize c); [|auto].
  destruct (Cache.cache c) as [|[oldestKey oldest] rest] eqn:Hc; [auto|].
  destruct (truthy_string oldestKey); [|auto].
  apply map_get_delete_Some.
Qed.

(** Right after [set], the key reads back what was stored, whatever was
    evicted to make room. *)
Lemma set_lookup c key emb now :
  Cache.map_get key (Cache.cache (Cache.set c key emb now))
  = Some {| Cache.embedding := emb; Cache.timestamp := now |}.
Proof. unfold Cache.set. simpl. apply map_get_set_same. Qed.

(** C7. [get] answers [null] exactly when the key is absent or the entry is
    older than the TTL ([now - timestamp > ttl]); whatever it does return is
    the embedding of an entry of age at most the TTL; and an entry found
    expired is deleted, so no later [get] returns it either. *)
Theorem get_miss_iff_absent_or_expired c key now :
  (fst (Cache.get c key now) = None <->
     Cache.map_get key (Cache.cache c) = None \/
     exists e, Cache.map_get key (Cache.cache c) = Some e /\
               now - Cache.timestamp e > Cache.ttl c)
  /\ (forall v, fst (Cache.get c key now) = Some v ->
        exists e, Cache.map_get key (Cache.cache c) = Some e /\
                  Cache.embedding e = v /\
                  now - Cache.timestamp e <= Cache.ttl c)
  /\ (forall e, Cache.map_get key (Cache.cache c) = Some e ->
        now - Cache.timestamp e > Cache.ttl c ->
        forall now', fst (Cache.get (snd (Cache.get c key now)) key now') = None).
Proof.
  unfold Cache.get.
  destruct (Cache.map_get key (Cache.cache c)) as [cached|] eqn:Hget.
  - destruct (Z.gtb_spec (now - Cache.timestamp cached) (Cache.ttl c)) as [Hold|Hfresh];
      simpl.
    + split; [|split].
      * split; [|reflexivity]. intros _. right. exists cached. split; [reflexivity|lia].
      * discriminate.
      * intros e _ _ now'. simpl. now rewrite map_get_delete_same.
    + split; [|split].
      * split; [discriminate|].
        intros [Habs|[e [He Hold]]]; [discriminate|].
        injection He as <-. lia.
      * intros v [= <-]. exists cached. repeat split; try reflexivity; lia.
      * intros e [= <-] Hold. lia.
  - simpl. split; [|split].
    + split; [now left | reflexivity].
    + discriminate.
    + discriminate.
Qed.

End CacheFacts.

Lemma get_miss_witness :
  fst (Cache.get Scenario.warm (Base.getCacheKey Scenario.balanced "hello") 3600001)
  = None
  /\ fst (Cache.get Scenario.warm (Base.getCacheKey Scenario.balanced "hello") 3600000)
     = Some (Some [1%Q]).
Proof.
  split.
  - apply (get_miss_iff_absent_or_expired Scenario.warm
             (Base.getCacheKey Scenario.balanced "hello") 3600001).
    right. eexists. split; [reflexivity|]. simpl. lia.
  - destruct (Cache.get Scenario.warm (Base.getCacheKey Scenario.balanced "hello")
                3600000) as [[v|] c] eqn:Hget.
    + destruct (proj1 (proj2 (get_miss_iff_absent_or_expired Scenario.warm
                  (Base.getCacheKey Scenario.balanced "hello") 3600000)) v)
        as (e & He & Hv & _); [now rewrite Hget|].
      injection He as <-. simpl in Hv. now subst v.
    + discriminate Hget.
Defined.

(** ** Cache keys *)

Lemma append_empty (s : string) : EmptyString +:+ s = s.
Proof. reflexivity. Qed.

Lemma append_String (c : ascii) (a s : string) :
  String c a +:+ s = String c (a +:+ s).
Proof. reflexivity. Qed.

(** A colon-free prefix in front of a colon is read back uniquely. *)
Lemma colon_prefix_unique (a b x y : string) :
  has_colon a = false -> has_colon b = false ->
  a +:+ ":" +:+ x = b +:+ ":" +:+ y -> a = b /\ x = y.
Proof.
  revert b. induction a as [|c a IH]; intros [|d b] Ha Hb Heq;
    repeat (rewrite append_empty in Heq || rewrite append_String in Heq);
    simpl in Ha, Hb.
  - injection Heq as ->. split; reflexivity.
  - injection Heq as <- _. rewrite Ascii.eqb_refl in Hb. discriminate.
  - injection Heq as -> _. rewrite Ascii.eqb_refl in Ha. discriminate.
  - injection Heq as -> Heq.
    apply orb_false_iff in Ha as [_ Ha]. apply orb_false_iff in Hb as [_ Hb].
    destruct (IH b Ha Hb Heq) as [-> ->]. split; reflexivity.
Qed.

Lemma truthy_string_nonempty (s : string) : s <> EmptyString -> truthy_string s = true.
Proof. destruct s; [contradiction | reflexivity]. Qed.

(** C8, as the code has it.  The key is [provider:model:text].  When the
    provider and model names hold no colon and the models are not empty,
    equal keys come only from the same provider, the same model and the same
    text: keys of distinct (provider, model) pairs never collide, and a
    vector cached under one pair is never what a lookup under another pair
    finds. *)
Theorem getCacheKey_injective_without_colon (c1 c2 : Base.EmbeddingConfig)
    (t1 t2 : string) :
  has_colon (Base.provider c1) = false -> has_colon (Base.provider c2) = false ->
  has_colon (Base.model c1) = false -> has_colon (Base.model c2) = false ->
  Base.model c1 <> EmptyString -> Base.model c2 <> EmptyString ->
  (Base.getCacheKey c1 t1 = Base.getCacheKey c2 t2 ->
     Base.provider c1 = Base.provider c2 /\ Base.model c1 = Base.model c2 /\ t1 = t2)
  /\ ((Base.provider c1, Base.model c1) <> (Base.provider c2, Base.model c2) ->
      Base.getCacheKey c1 t1 <> Base.getCacheKey c2 t2
      /\ forall (cache : Base.EmbeddingCache) v now e,
           Cache.map_get (Base.getCacheKey c2 t2)
             (Cache.cache (Cache.set cache (Base.getCacheKey c1 t1) v now)) = Some e ->
           Cache.map_get (Base.getCacheKey c2 t2) (Cache.cache cache) = Some e).
Proof.
  intros Hp1 Hp2 Hm1 Hm2 Hn1 Hn2.
  assert (Hinj : Base.getCacheKey c1 t1 = Base.getCacheKey c2 t2 ->
     Base.provider c1 = Base.provider c2 /\ Base.model c1 = Base.model c2 /\ t1 = t2).
  { unfold Base.getCacheKey.
    rewrite !truthy_string_nonempty by assumption.
    intros Heq.
    apply colon_prefix_unique in Heq as [Hp Heq]; [|assumption..].
    apply colon_prefix_unique in Heq as [Hm Ht]; [|assumption..].
    auto. }
  split; [exact Hinj|].
  intros Hne.
  assert (Hkeys : Base.getCacheKey c1 t1 <> Base.getCacheKey c2 t2).
  { intros Heq. apply Hne. destruct (Hinj Heq) as (-> & -> & _). reflexivity. }
  split; [exact Hkeys|].
  intros cache v now e. now apply set_keeps_others.
Qed.

Lemma getCacheKey_injective_witness :
  Base.getCacheKey Scenario.balanced "hello"
  <> Base.getCacheKey (Scenario.ollama_config "all-minilm" (Some 32) (Some true)) "hello".
Proof.
  apply (getCacheKey_injective_without_colon Scenario.balanced
           (Scenario.ollama_config "all-minilm" (Some 32) (Some true)) "hello" "hello");
    try reflexivity; try discriminate.
Defined.

(** C8, as stated, fails: the separator may occur inside a model name (Ollama
    model tags such as [nomic-embed-text:v1.5]) or a text, and an empty model
    reads as ['default'], so distinct (provider, model) pairs can derive the
    same key. *)
Lemma getCacheKey_collision :
  let tagged := Scenario.ollama_config "nomic-embed-text:v1.5" (Some 32) (Some true) in
  let unnamed := Scenario.ollama_config "" (Some 32) (Some true) in
  let default := Scenario.ollama_config "default" (Some 32) (Some true) in
  ((Base.provider Scenario.balanced, Base.model Scenario.balanced)
     <> (Base.provider tagged, Base.model tagged)
   /\ Base.getCacheKey Scenario.balanced "v1.5:hello" = Base.getCacheKey tagged "hello")
  /\ ((Base.provider unnamed, Base.model unnamed)
        <> (Base.provider default, Base.model default)
      /\ Base.getCacheKey unnamed "hello" = Base.getCacheKey default "hello").
Proof. repeat split; discriminate. Qed.

(** ** retryWithBackoff *)

Section RetryFacts.
Context {T : Type}.
Variable operation : nat -> outcome T.
Variables maxRetries baseDelay : Z.

(** From an attempt that is still allowed, the loop ends within the attempts
    that are left, having invoked the operation at least once more; it either
    hands back what the last invocation returned, or it used every attempt
    and wraps what the last invocation threw. *)
Lemma retry_loop_attempts (n : nat) :
  forall fuel attempt lastError ncalls slept,
    1 <= attempt <= maxRetries ->
    Z.to_nat (maxRetries - attempt) = n ->
    (S n <= fuel)%nat ->
    exists r,
      Base.retry_loop operation maxRetries baseDelay fuel attempt lastError ncalls slept
      = Some r
      /\ (ncalls < Base.calls r <= ncalls + S n)%nat
      /\ ((exists v, operation (Base.calls r - 1)%nat = Returned v
                     /\ Base.result r = Returned v)
          \/ (exists e, operation (Base.calls r - 1)%nat = Thrown e
                        /\ Base.calls r = (ncalls + S n)%nat
                        /\ Base.result r = Base.exhausted maxRetries (Some e))).
Proof.
  induction n as [|n IH]; intros fuel attempt lastError ncalls slept Ha Hn Hfuel;
    (destruct fuel as [|fuel]; [lia|]); simpl;
    (destruct (Z.leb_spec attempt maxRetries) as [_|?]; [|lia]);
    destruct (operation ncalls) as [v|e] eqn:Hop.
  - eexists; split; [reflexivity|]; simpl. split; [lia|]. left. exists v.
    rewrite Nat.sub_0_r. auto.
  - destruct (Z.eqb_spec attempt maxRetries) as [_|?]; [|lia].
    eexists; split; [reflexivity|]; simpl. split; [lia|]. right. exists e.
    rewrite Nat.sub_0_r. repeat split; [assumption|lia].
  - eexists; split; [reflexivity|]; simpl. split; [lia|]. left. exists v.
    rewrite Nat.sub_0_r. auto.
  - destruct (Z.eqb_spec attempt maxRetries) as [?|_]; [lia|].
    destruct (IH fuel (attempt + 1) (Some e) (S ncalls)
                (slept ++ [Base.backoff baseDelay attempt]))
      as (r & Hr & Hcalls & Hres); [lia..|].
    exists r. split; [exact Hr|]. split; [lia|].
    destruct Hres as [Hret|(e' & He' & Hc & Hres)]; [now left|].
    right. exists e'. repeat split; [assumption|lia|assumption].
Qed.

End RetryFacts.

(** C10. [retryWithBackoff] always settles.  With [maxRetries >= 1] the
    operation is invoked at least once, and the outcome is what the last
    invocation returned or, after [maxRetries] invocations, the documented
    error wrapping the message of what the last invocation threw.  With
    [maxRetries <= 0] the loop body never runs: the operation is not invoked,
    nothing is slept, and the [throw] reads [.message] of the unassigned
    [lastError], which is a [TypeError] and not the documented error. *)
Theorem retryWithBackoff_needs_one_attempt {T : Type} (operation : nat -> outcome T)
    (maxRetries baseDelay : option Z) :
  let m := match maxRetries with Some n => n | None => 3 end in
  exists r,
    Base.retryWithBackoff (Base.enough_fuel maxRetries) operation maxRetries baseDelay
    = Some r
    /\ (1 <= m ->
        (1 <= Base.calls r <= Z.to_nat m)%nat
        /\ ((exists v, operation (Base.calls r - 1)%nat = Returned v
                       /\ Base.result r = Returned v)
            \/ (exists e, operation (Base.calls r - 1)%nat = Thrown e
                          /\ Base.calls r = Z.to_nat m
                          /\ Base.result r =
                             Thrown (Error ("Operation failed after " +:+ show_Z m +:+
                                            " attempts: " +:+ message e)))))
    /\ (m <= 0 ->
        Base.calls r = 0%nat /\ Base.sleeps r = []
        /\ Base.result r =
           Thrown (TypeError "Cannot read properties of undefined (reading 'message')")).
Proof.
  intros m. unfold Base.retryWithBackoff, Base.enough_fuel. fold m.
  destruct (Z.le_gt_cases 1 m) as [Hpos|Hneg].
  - destruct (retry_loop_attempts operation m
                (match baseDelay with Some n => n | None => 1000 end)
                (Z.to_nat (m - 1)) (S (Z.to_nat m)) 1 None 0%nat [])
      as (r & Hr & Hcalls & Hres); [lia..|].
    exists r. split; [exact Hr|]. split; [|lia].
    intros _. split; [lia|].
    destruct Hres as [Hret|(e & He & Hc & Hres)]; [now left|].
    right. exists e. repeat split; [assumption|lia|exact Hres].
  - simpl. destruct (Z.leb_spec 1 m) as [?|_]; [lia|].
    eexists; split; [reflexivity|]. split; [lia|]. intros _. simpl. auto.
Qed.

Lemma retryWithBackoff_witness :
  exists r,
    Base.retryWithBackoff (Base.enough_fuel (Some (-1)))
      (fun _ => @Thrown nat (Error "fetch failed")) (Some (-1)) None = Some r
    /\ Base.calls r = 0%nat
    /\ Base.result r =
       Thrown (TypeError "Cannot read properties of undefined (reading 'message')").
Proof.
  destruct (retryWithBackoff_needs_one_attempt
              (fun _ => @Thrown nat (Error "fetch failed")) (Some (-1)) None)
    as (r & Hr & _ & Hneg).
  exists r. split; [exact Hr|].
  destruct Hneg as (Hc & _ & Hres); [simpl; lia|]. split; assumption.
Defined.

(** Three failures with the defaults: two backoff sleeps, then the wrapped
    error. *)
Example retryWithBackoff_three_failures :
  Base.retryWithBackoff (Base.enough_fuel None)
    (fun _ => @Thrown nat (Error "fetch failed")) None None
  = Some {| Base.result :=
              Thrown (Error "Operation failed after 3 attempts: fetch failed");
            Base.calls := 3; Base.sleeps := [1000; 2000] |}.
Proof. reflexivity. Qed.

(** ** OllamaEmbeddingProvider *)

(** What a returning call hands back. *)
Lemma generateBatchEmbeddingsInternal_returned (texts : list string)
    (raced : outcome Ollama.EmbedResponse) (vs : list Base.EmbeddingVector) :
  Ollama.generateBatchEmbeddingsInternal texts raced = Returned vs ->
  List.length vs = List.length texts
  /\ raced = Returned {| Ollama.embeddings := Some vs |}.
Proof.
  unfold Ollama.generateBatchEmbeddingsInternal.
  destruct raced as [[[ws|]]|e]; simpl; try discriminate.
  destruct (Nat.eqb_spec (List.length ws) (List.length texts)); simpl; [|discriminate].
  intros [= ->]. split; [assumption|reflexivity].
Qed.

(** C2. A response whose vector count differs from the number of texts, or
    that has no vectors at all, makes the call fail with the
    ["Expected n embeddings, got m"] error; a call that returns hands back the
    response's own list, untouched, with one vector per text. *)
Theorem generateBatchEmbeddingsInternal_length_checked (texts : list string)
    (raced : outcome Ollama.EmbedResponse) :
  (forall response vs,
      raced = Returned response -> Ollama.embeddings response = Some vs ->
      List.length vs <> List.length texts ->
      Ollama.generateBatchEmbeddingsInternal texts raced
      = Thrown (Ollama.mismatch (List.length texts) (List.length vs)))
  /\ (forall response,
      raced = Returned response -> Ollama.embeddings response = None ->
      Ollama.generateBatchEmbeddingsInternal texts raced
      = Thrown (Ollama.mismatch (List.length texts) 0))
  /\ (forall vs,
      Ollama.generateBatchEmbeddingsInternal texts raced = Returned vs ->
      List.length vs = List.length texts
      /\ raced = Returned {| Ollama.embeddings := Some vs |}).
Proof.
  split; [|split].
  - intros response vs -> Hvs Hne. unfold Ollama.generateBatchEmbeddingsInternal.
    rewrite Hvs.
    destruct (Nat.eqb_spec (List.length vs) (List.length texts)); [contradiction|reflexivity].
  - intros response -> Hvs. unfold Ollama.generateBatchEmbeddingsInternal.
    now rewrite Hvs.
  - apply generateBatchEmbeddingsInternal_returned.
Qed.

Lemma generateBatchEmbeddingsInternal_witness :
  Ollama.generateBatchEmbeddingsInternal ["a"; "b"] (Scenario.short 0%nat ["a"; "b"])
  = Thrown (Error "Expected 2 embeddings, got 1").
Proof.
  destruct (generateBatchEmbeddingsInternal_length_checked
              ["a"; "b"] (Scenario.short 0%nat ["a"; "b"])) as (Hmis & _ & _).
  apply (Hmis {| Ollama.embeddings := Some [[1%Q]] |} [[1%Q]]);
    [reflexivity | reflexivity | simpl; lia].
Defined.

Section CoalescerFacts.
Import Base Ollama.
Variable cfg : EmbeddingConfig.
Variable embeddings : list EmbeddingVector.
Variable now : nat -> Z.

(** The callbacks of the [forEach]: element [i] is resolved with
    [embeddings[index + i]]. *)
Lemma resolve_each_log items : forall index cache,
  snd (resolve_each cfg embeddings now items index cache)
  = imap (fun i item => Resolved (handle item) (embeddings !! (index + i)%nat)) items.
Proof.
  induction items as [|item rest IH]; intros index cache; simpl; [reflexivity|].
  specialize (IH (S index)
    (setCachedEmbedding cfg cache (text item) (embeddings !! index) (now index))).
  destruct (resolve_each cfg embeddings now rest (S index) _) as [c log]; simpl in *.
  rewrite Nat.add_0_r. f_equal. rewrite IH. apply imap_ext.
  intros i x _. simpl. now rewrite Nat.add_succ_r.
Qed.

(** The [forEach] over [l1 ++ l2] is the one over [l1] followed by the one
    over [l2]. *)
Lemma resolve_each_app l1 l2 : forall index cache,
  fst (resolve_each cfg embeddings now (l1 ++ l2) index cache)
  = fst (resolve_each cfg embeddings now l2 (index + List.length l1)%nat
           (fst (resolve_each cfg embeddings now l1 index cache))).
Proof.
  induction l1 as [|item rest IH]; intros index cache; simpl.
  - now rewrite Nat.add_0_r.
  - specialize (IH (S index)
      (setCachedEmbedding cfg cache (text item) (embeddings !! index) (now index))).
    destruct (resolve_each cfg embeddings now (rest ++ l2) (S index) _) as [c log].
    destruct (resolve_each cfg embeddings now rest (S index) _) as [c' log'].
    simpl in *. rewrite IH. now rewrite Nat.add_succ_r.
Qed.

(** A provider without a cache stays without one. *)
Lemma resolve_each_uncached items : forall index,
  fst (resolve_each cfg embeddings now items index None) = None.
Proof.
  induction items as [|item rest IH]; intros index; simpl; [reflexivity|].
  specialize (IH (S index)).
  destruct (resolve_each cfg embeddings now rest (S index) None); simpl in *.
  exact IH.
Qed.

(** With a cache, the write of element [i] leaves its key reading back
    [embeddings[i]], and the rest of the loop goes on from that cache. *)
Lemma resolve_each_writes items c i item :
  items !! i = Some item ->
  exists c_i,
    fst (resolve_each cfg embeddings now (take (S i) items) 0 (Some c)) = Some c_i
    /\ Cache.map_get (getCacheKey cfg (text item)) (Cache.cache c_i)
       = Some {| Cache.embedding := embeddings !! i; Cache.timestamp := now i |}
    /\ fst (resolve_each cfg embeddings now items 0 (Some c))
       = fst (resolve_each cfg embeddings now (drop (S i) items) (S i) (Some c_i)).
Proof.
  intros Hi.
  assert (Hlen : (i < List.length items)%nat) by (eapply lookup_lt_Some; eassumption).
  assert (Hsome : forall l index (c0 : EmbeddingCache), exists c1,
             fst (resolve_each cfg embeddings now l index (Some c0)) = Some c1).
  { induction l as [|x l IH]; intros index c0; simpl; [eauto|].
    destruct (IH (S index)
                (Cache.set c0 (getCacheKey cfg (text x)) (embeddings !! index) (now index)))
      as [c1 Hc1].
    destruct (resolve_each cfg embeddings now l (S index) _); simpl in *. eauto. }
  rewrite (take_S_r _ _ _ Hi).
  destruct (Hsome (take i items) 0%nat c) as [c0 Hc0].
  pose (c_i := Cache.set c0 (getCacheKey cfg (text item)) (embeddings !! i) (now i)).
  assert (Hstep : fst (resolve_each cfg embeddings now (take i items ++ [item]) 0 (Some c))
                  = Some c_i).
  { rewrite resolve_each_app, Hc0. simpl.
    rewrite length_take, Nat.min_l by lia. reflexivity. }
  exists c_i. split; [exact Hstep|]. split; [apply set_lookup|].
  rewrite <- (take_drop (S i) items) at 1.
  rewrite resolve_each_app, (take_S_r _ _ _ Hi), Hstep.
  rewrite length_app, length_take, Nat.min_l by lia. simpl.
  now rewrite Nat.add_1_r.
Qed.

End CoalescerFacts.

Section ProcessBatchFacts.
Import Base Ollama.

(** Behind the guard of [generateEmbedding], the size a dispatch uses is
    [config.batchSize] itself, and it is at least 2. *)
Lemma usesBatching_batchSize (cfg : EmbeddingConfig) :
  usesBatching cfg = true ->
  exists n, batchSize cfg = Some n /\ 1 < n /\ num_or (batchSize cfg) 32 = n.
Proof.
  unfold usesBatching, num_or. destruct (batchSize cfg) as [n|]; [|discriminate].
  intros H. apply andb_true_iff in H as [Hz Hn].
  apply negb_true_iff in Hz. rewrite Hz.
  exists n. repeat split. lia.
Qed.

(** What the dispatch takes and leaves. *)
Lemma processBatch_dispatch_takes (p : OllamaEmbeddingProvider) :
  batchQueue p <> [] ->
  let n := Z.to_nat (num_or (batchSize (config p)) 32) in
  processBatch_dispatch p
  = Some (take n (batchQueue p),
          {| config := config p; cache := cache p; batchQueue := drop n (batchQueue p);
             processingBatch := true; requests := requests p |}).
Proof.
  intros Hq n. unfold processBatch_dispatch.
  destruct (batchQueue p) as [|r q] eqn:Hqueue; [contradiction|reflexivity].
Qed.

(** Every dispatch costs exactly one request to the provider, whatever
    [config.maxRetries] says. *)
Lemma processBatch_single_request (ollama : client) (now : nat -> Z)
    (p : OllamaEmbeddingProvider) :
  processBatch_enters p = true ->
  requests (after (processBatch ollama now (fun q => q) (fun q => q) p))
  = S (requests p).
Proof.
  intros Hin. unfold processBatch. rewrite Hin.
  assert (Hq : batchQueue p <> []).
  { unfold processBatch_enters in Hin.
    apply negb_true_iff, orb_false_iff in Hin as [_ Hin].
    destruct (batchQueue p); [discriminate|discriminate]. }
  rewrite (processBatch_dispatch_takes p Hq). cbv zeta.
  unfold processBatch_settle. simpl.
  destruct (generateBatchEmbeddingsInternal _ _); simpl.
  - destruct (resolve_each _ _ _ _ _ _); reflexivity.
  - reflexivity.
Qed.

(** C1, as the code has it.  A run that passes the entry guard and finds the
    queue non-empty after the debounce sleep dispatches a batch: the first
    [batchSize || 32] requests of the queue (fewer if the queue is shorter),
    which leave the queue.  If the provider call returns, request [i] is
    resolved with vector [i] of the response and, when the provider has a
    cache, the write for request [i] leaves its key reading back that vector
    before the loop goes on.  If the call throws, every request of the batch
    is rejected with the error thrown, none is resolved and the cache is left
    alone. *)
Theorem processBatch_settles_batch_in_order (ollama : client) (now : nat -> Z)
    (while_asleep while_calling : interference) (p : OllamaEmbeddingProvider) :
  processBatch_enters p = true ->
  batchQueue (while_asleep p) <> [] ->
  let woken := while_asleep p in
  let n := Z.to_nat (num_or (batchSize (config woken)) 32) in
  let batch := take n (batchQueue woken) in
  let texts := List.map text batch in
  let s := processBatch ollama now while_asleep while_calling p in
  exists dispatched,
    processBatch_dispatch woken = Some (batch, dispatched)
    /\ batchQueue woken = batch ++ batchQueue dispatched
    /\ (List.length batch <= n)%nat
    /\ let settling := while_calling (issued dispatched) in
       match generateBatchEmbeddingsInternal texts
               (ollama (requests dispatched) texts) with
       | Returned embeddings =>
           List.length (completions s) = List.length batch
           /\ forall i item, batch !! i = Some item ->
              exists v,
                embeddings !! i = Some v
                /\ completions s !! i = Some (Resolved (handle item) (Some v))
                /\ forall c, cache settling = Some c ->
                   exists c_i,
                     fst (resolve_each (config settling) embeddings now
                            (take (S i) batch) 0 (Some c)) = Some c_i
                     /\ Cache.map_get (getCacheKey (config settling) (text item))
                          (Cache.cache c_i)
                        = Some {| Cache.embedding := Some v;
                                  Cache.timestamp := now i |}
                     /\ cache (after s)
                        = fst (resolve_each (config settling) embeddings now
                                 (drop (S i) batch) (S i) (Some c_i))
       | Thrown e =>
           completions s = List.map (fun item => Rejected (handle item) e) batch
           /\ (forall h v, ~ In (Resolved h v) (completions s))
           /\ cache (after s) = cache settling
       end.
Proof.
  intros Hin Hq woken n batch texts s.
  pose proof (processBatch_dispatch_takes woken Hq) as Hdispatch.
  cbv zeta in Hdispatch. fold n in Hdispatch. fold batch in Hdispatch.
  eexists. split; [exact Hdispatch|].
  split; [symmetry; apply take_drop|].
  split; [apply firstn_le_length|].
  subst s. unfold processBatch. rewrite Hin. fold woken. rewrite Hdispatch.
  cbv zeta. fold texts. simpl requests.
  set (settling := while_calling _).
  unfold processBatch_settle.
  destruct (generateBatchEmbeddingsInternal texts (ollama (requests woken) texts))
    as [embeddings|e] eqn:Hcall.
  - pose proof (resolve_each_log (config settling) embeddings now batch 0
                  (cache settling)) as Hlog.
    destruct (resolve_each (config settling) embeddings now batch 0 (cache settling))
      as [cache' log] eqn:Hrun.
    simpl in Hlog. subst log. simpl.
    split; [apply length_imap|].
    intros i item Hi.
    apply generateBatchEmbeddingsInternal_returned in Hcall as [Hlen _].
    assert (Hv : is_Some (embeddings !! i)).
    { apply lookup_lt_is_Some. rewrite Hlen. unfold texts. rewrite length_map.
      eapply lookup_lt_Some. eassumption. }
    destruct Hv as [v Hv]. exists v. split; [exact Hv|].
    split; [rewrite list_lookup_imap, Hi; simpl; now rewrite Hv|].
    intros c Hc.
    destruct (resolve_each_writes (config settling) embeddings now batch c i item Hi)
      as (c_i & Hc_i & Hget & Hrest).
    exists c_i. split; [exact Hc_i|]. split; [now rewrite Hget, Hv|].
    rewrite <- Hrest, <- Hc, Hrun. reflexivity.
  - simpl. split; [reflexivity|]. split; [|reflexivity].
    intros h v Hres. apply in_map_iff in Hres as (item & Habs & _). discriminate.
Qed.

End ProcessBatchFacts.

Lemma processBatch_settles_witness :
  Ollama.completions
    (Ollama.processBatch Scenario.steady Scenario.at_5000
       Scenario.world_arrives Scenario.undisturbed
       (Scenario.queued Scenario.balanced ["hello"])) !! 1%nat
  = Some (Ollama.Resolved 1 (Some [1%Q])).
Proof.
  destruct (processBatch_settles_batch_in_order Scenario.steady Scenario.at_5000
              Scenario.world_arrives Scenario.undisturbed
              (Scenario.queued Scenario.balanced ["hello"]) eq_refl)
    as (dispatched & Hdispatch & _ & _ & H); [discriminate|].
  injection Hdispatch as <-.
  destruct (proj2 H 1%nat {| Ollama.text := "world"; Ollama.handle := 1 |} eq_refl)
    as (v & Hv & Hdone & _).
  injection Hv as <-. exact Hdone.
Defined.

(** C1, as stated, fails on the cache write: a provider constructed without
    [cacheEnabled] has no cache, [setCachedEmbedding] returns at once, and a
    vector that was resolved is not found afterwards. *)
Lemma processBatch_uncached_writes_nothing :
  let s := Ollama.processBatch Scenario.steady Scenario.at_5000
             Scenario.undisturbed Scenario.undisturbed
             (Scenario.queued Scenario.uncached ["hello"]) in
  Ollama.completions s = [Ollama.Resolved 0 (Some [1%Q])]
  /\ Ollama.cache (Ollama.after s) = None
  /\ fst (Base.getCachedEmbedding Scenario.uncached (Ollama.cache (Ollama.after s))
            "hello" 5000) = None.
Proof. repeat split. Qed.

(** C4 fails on the code at this input.  One queued request, a provider whose
    first request fails and whose second would succeed, [maxRetries = 3]:
    [processBatch] issues a single request and rejects, where the retried
    batch call of [generateBatchEmbeddings] on the same client returns the
    vector after one backoff sleep. *)
Theorem processBatch_rejects_without_retry :
  let s := Ollama.processBatch Scenario.flaky Scenario.at_5000
             Scenario.undisturbed Scenario.undisturbed
             (Scenario.queued Scenario.balanced ["hello"]) in
  Ollama.completions s = [Ollama.Rejected 0 (Error "fetch failed")]
  /\ Ollama.requests (Ollama.after s) = 1%nat
  /\ Ollama.retried_batch Scenario.flaky Scenario.balanced 0 ["hello"]
     = Some {| Base.result := Returned [[1%Q]]; Base.calls := 2;
               Base.sleeps := [1000] |}.
Proof. repeat split. Qed.

(** ** Array.prototype.sort *)

Section SortFacts.
Context {A : Type}.
Variable compare : A -> A -> Search.number.

Lemma sort_insert_perm (x : A) (l : list A) :
  Permutation (Search.sort_insert compare x l) (x :: l).
Proof.
  induction l as [|y l IH]; simpl; [reflexivity|].
  destruct (Search.positive (compare x y)); [|reflexivity].
  rewrite IH. apply perm_swap.
Qed.

Lemma sort_perm (l : list A) : Permutation (Search.sort compare l) l.
Proof.
  induction l as [|x l IH]; simpl; [reflexivity|].
  rewrite sort_insert_perm. now apply perm_skip.
Qed.

(** The comparator orders by a rational [key], descending, on the elements
    that are [good]: [compare x y > 0] exactly when [key x < key y]. *)
Variable key : A -> Q.
Variable good : A -> Prop.
Hypothesis compare_key : forall x y, good x -> good y ->
  Search.positive (compare x y) = negb (Qle_bool (key y) (key x)).

Lemma sort_insert_sorted (x : A) (l : list A) :
  good x -> Forall good l ->
  StronglySorted (descending key) l ->
  StronglySorted (descending key) (Search.sort_insert compare x l).
Proof.
  intros Hx Hl Hs. induction Hs as [|y l Hs IH Hy]; simpl.
  - repeat constructor.
  - inversion Hl as [|? ? Hgy Hgl]; subst.
    rewrite (compare_key x y Hx Hgy).
    destruct (Qle_bool (key y) (key x)) eqn:Hle; simpl.
    + apply Qle_bool_iff in Hle.
      constructor; [now constructor|].
      constructor; [exact Hle|].
      eapply Forall_impl; [exact Hy|]. intros z Hz. unfold descending in *.
      eapply Qle_trans; eassumption.
    + assert (Hlt : (key x < key y)%Q).
      { apply Qnot_le_lt. intros H. apply Qle_bool_iff in H. congruence. }
      constructor; [now apply IH|].
      eapply Permutation_Forall; [symmetry; apply sort_insert_perm|].
      constructor; [now apply Qlt_le_weak | exact Hy].
Qed.

Lemma sort_sorted (l : list A) :
  Forall good l -> StronglySorted (descending key) (Search.sort compare l).
Proof.
  induction l as [|x l IH]; intros Hl; simpl; [constructor|].
  inversion Hl; subst.
  apply sort_insert_sorted; [assumption| |now apply IH].
  eapply Permutation_Forall; [symmetry; apply sort_perm | assumption].
Qed.

(** Stability: a class [p] of elements with one and the same key comes out
    in the order it went in. *)
Variable p : A -> bool.
Hypothesis p_ties : forall x y, good x -> good y ->
  p x = true -> p y = true -> (key x == key y)%Q.

Lemma sort_insert_stable (x : A) (l : list A) :
  good x -> Forall good l ->
  List.filter p (Search.sort_insert compare x l) = List.filter p (x :: l).
Proof.
  intros Hx Hl. induction Hl as [|y l Hy Hl IH]; simpl; [reflexivity|].
  rewrite (compare_key x y Hx Hy).
  destruct (Qle_bool (key y) (key x)) eqn:Hle; simpl; [reflexivity|].
  rewrite IH. simpl.
  destruct (p x) eqn:Hpx; [|reflexivity].
  destruct (p y) eqn:Hpy; [|reflexivity].
  exfalso. pose proof (p_ties x y Hx Hy Hpx Hpy) as Heq.
  assert (Qle_bool (key y) (key x) = true); [|congruence].
  apply Qle_bool_iff. rewrite Heq. apply Qle_refl.
Qed.

Lemma sort_stable (l : list A) :
  Forall good l -> List.filter p (Search.sort compare l) = List.filter p l.
Proof.
  induction l as [|x l IH]; intros Hl; simpl; [reflexivity|].
  inversion Hl; subst.
  rewrite sort_insert_stable; [simpl; now rewrite IH|assumption|].
  eapply Permutation_Forall; [symmetry; apply sort_perm | assumption].
Qed.

End SortFacts.

(** ** SemanticSearchService: ranking *)

Section RankFacts.
Import Base Search.
Variable cos_similarity : EmbeddingVector -> EmbeddingVector -> number.

Lemma by_similarity_key (x y : SemanticSearchResult) :
  finite x -> finite y ->
  positive (by_similarity x y)
  = negb (Qle_bool (similarity_value y) (similarity_value x)).
Proof.
  intros [qx Hx] [qy Hy]. unfold by_similarity, similarity_value.
  rewrite Hx, Hy. simpl. f_equal.
  apply eq_true_iff_eq. rewrite !Qle_bool_iff. split; intros H; lra.
Qed.

Lemma tie_same_key (q : Q) (x y : SemanticSearchResult) :
  finite x -> finite y -> tie q x = true -> tie q y = true ->
  (similarity_value x == similarity_value y)%Q.
Proof.
  intros [qx Hx] [qy Hy]. unfold tie, similarity_value. rewrite Hx, Hy.
  intros H1 H2. apply Qeq_bool_iff in H1, H2. now rewrite H1, H2.
Qed.

Lemma number_ge_finite (x : number) (t : Q) :
  number_ge x t = true <-> exists q, x = Fin q /\ (t <= q)%Q.
Proof.
  destruct x as [|q]; simpl.
  - split; [discriminate | intros (q & Hq & _); discriminate].
  - rewrite Qle_bool_iff. split; [eauto|]. intros (q' & [= <-] & H). exact H.
Qed.

Lemma filter_take_prefix {A : Type} (f : A -> bool) (k : nat) (l : list A) :
  List.filter f (take k l) `prefix_of` List.filter f l.
Proof.
  exists (List.filter f (drop k l)).
  rewrite <- List.filter_app. now rewrite take_drop.
Qed.

Lemma filter_filter_within {A : Type} (f g : A -> bool) (l : list A) :
  (forall x, f x = true -> g x = true) ->
  List.filter f (List.filter g l) = List.filter f l.
Proof.
  intros Hfg. induction l as [|x l IH]; simpl; [reflexivity|].
  destruct (f x) eqn:Hf.
  - rewrite (Hfg x Hf). simpl. now rewrite Hf, IH.
  - destruct (g x); simpl; [now rewrite Hf|exact IH].
Qed.

Lemma filter_filter_apart {A : Type} (f g : A -> bool) (l : list A) :
  (forall x, g x = true -> f x = false) ->
  List.filter f (List.filter g l) = [].
Proof.
  intros Hgf. induction l as [|x l IH]; simpl; [reflexivity|].
  destruct (g x) eqn:Hg; [|exact IH].
  simpl. now rewrite (Hgf x Hg).
Qed.

Lemma StronglySorted_take {A : Type} (R : A -> A -> Prop) (k : nat) (l : list A) :
  StronglySorted R l -> StronglySorted R (take k l).
Proof.
  intros Hs. revert k. induction Hs as [|x l Hs IH Hx]; intros [|k]; simpl;
    try constructor.
  - apply IH.
  - now apply Forall_take.
Qed.

(** What the [map / filter / sort / slice] chain delivers. *)
Lemma rank_ranked (source : EmbeddingVector) (keepEmbedding : bool)
    (minSimilarity : Q) (limit : nat) (rows : list MemoryWithEmbedding) :
  let candidates := scored cos_similarity source keepEmbedding rows in
  let results := rank cos_similarity source keepEmbedding minSimilarity limit rows in
  Forall (fun r => In r candidates
                   /\ exists q, similarity r = Fin q /\ (minSimilarity <= q)%Q) results
  /\ StronglySorted (fun a b => (similarity_value b <= similarity_value a)%Q) results
  /\ (forall q, List.filter (tie q) results `prefix_of` List.filter (tie q) candidates)
  /\ (List.length results <= limit)%nat.
Proof.
  intros candidates results.
  set (kept := List.filter (fun result => number_ge (similarity result) minSimilarity)
                 candidates).
  set (sorted := sort by_similarity kept).
  assert (Hres : results = take limit sorted) by reflexivity.
  assert (Hkept : Forall (fun r => In r candidates
             /\ exists q, similarity r = Fin q /\ (minSimilarity <= q)%Q) kept).
  { apply List.Forall_forall. intros r Hr. apply filter_In in Hr as [Hin Hge].
    split; [exact Hin|]. now apply number_ge_finite. }
  assert (Hfin : Forall finite kept).
  { eapply Forall_impl; [exact Hkept|]. intros r (_ & q & Hq & _). now exists q. }
  assert (Hperm : Permutation sorted kept) by apply sort_perm.
  split; [|split; [|split]].
  - rewrite Hres. apply Forall_take.
    eapply Permutation_Forall; [symmetry; exact Hperm | exact Hkept].
  - rewrite Hres. apply StronglySorted_take.
    apply (sort_sorted by_similarity similarity_value finite by_similarity_key).
    exact Hfin.
  - intros q. rewrite Hres.
    etransitivity; [apply filter_take_prefix|]. unfold sorted.
    rewrite (sort_stable by_similarity similarity_value finite by_similarity_key
               (tie q) (tie_same_key q) kept Hfin).
    unfold kept.
    destruct (Qle_bool minSimilarity q) eqn:Hq.
    + rewrite filter_filter_within; [reflexivity|].
      intros r Ht. unfold tie in Ht. destruct (similarity r) as [|x]; [discriminate|].
      simpl. apply Qeq_bool_iff in Ht. apply Qle_bool_iff in Hq.
      apply Qle_bool_iff. now rewrite Ht.
    + rewrite filter_filter_apart; [apply prefix_nil|].
      intros r Hge. unfold tie. destruct (similarity r) as [|x]; [reflexivity|].
      simpl in Hge. apply Qle_bool_iff in Hge.
      destruct (Qeq_bool x q) eqn:Ht; [|reflexivity].
      apply Qeq_bool_iff in Ht.
      assert (Qle_bool minSimilarity q = true); [|congruence].
      apply Qle_bool_iff. now rewrite <- Ht.
  - rewrite Hres, length_take. lia.
Qed.

End RankFacts.

(** C3. [searchSimilar] fails only when the query cannot be embedded.
    Otherwise every result is a scored candidate whose similarity is a number
    [>= minSimilarity]; similarities do not increase along the results; within
    each class of equal similarity the results are the first candidates of
    that class, in the order supplied; and there are at most [limit] results. *)
Theorem searchSimilar_ranked
    (cos_similarity : Base.EmbeddingVector -> Base.EmbeddingVector -> Search.number)
    (db : Search.MemoryDatabase) (embeddingProvider : Search.EmbeddingProvider)
    (query : string) (options : Search.SemanticSearchOptions) :
  match Search.searchSimilar cos_similarity db embeddingProvider query options with
  | Thrown e => Search.generateEmbedding embeddingProvider query = Thrown e
  | Returned results =>
      exists queryEmbedding,
        Search.generateEmbedding embeddingProvider query = Returned queryEmbedding
        /\ let candidates :=
             Search.scored cos_similarity queryEmbedding
               (Search.default false (Search.includeEmbeddings options))
               (Search.filter_category (Search.category_filter options)
                  (Search.getMemoriesWithEmbeddings db
                     (Search.provider_part embeddingProvider 0)
                     (Search.provider_part embeddingProvider 1))) in
           Forall (fun r =>
                     In r candidates
                     /\ exists q, Search.similarity r = Search.Fin q
                          /\ (Search.default (7 # 10) (Search.minSimilarity options) <= q)%Q)
             results
           /\ StronglySorted
                (fun a b => (similarity_value b <= similarity_value a)%Q) results
           /\ (forall q, List.filter (tie q) results
                         `prefix_of` List.filter (tie q) candidates)
           /\ (List.length results <= Search.default 10 (Search.limit options))%nat
  end.
Proof.
  unfold Search.searchSimilar.
  destruct (Search.generateEmbedding embeddingProvider query) as [queryEmbedding|e];
    [|reflexivity].
  exists queryEmbedding. split; [reflexivity|]. apply rank_ranked.
Qed.

(** Ties keep the order of the candidates: of the four records at [0.95],
    the first three supplied are returned. *)
Example searchSimilar_three_of_five :
  match Search.searchSimilar Scenario.same_direction (Scenario.five []) Scenario.nomic
          "notes" (Scenario.plain (Some 3%nat) None) with
  | Returned results =>
      List.map (fun r => Search.id (Search.memory r)) results = ["m1"; "m2"; "m4"]
  | Thrown _ => False
  end.
Proof. vm_compute. reflexivity. Qed.

(** C9. Without a stored vector for the active provider and model,
    [findSimilarToMemory] throws ["No embedding found for memory <id>"].  With
    one, it returns; no result is the source record; and the results are those
    of [searchSimilar] (embeddings included, [limit] defaulting to 5) run
    with the stored vector as the query embedding over the candidates other
    than the source. *)
Theorem findSimilarToMemory_ranks_against_source
    (cos_similarity : Base.EmbeddingVector -> Base.EmbeddingVector -> Search.number)
    (db : Search.MemoryDatabase) (embeddingProvider : Search.EmbeddingProvider)
    (memoryId : string) (options : Search.SemanticSearchOptions) :
  let stored :=
    Search.getEmbedding db memoryId
      (Search.provider_part embeddingProvider 0)
      (Search.provider_part embeddingProvider 1) in
  (stored = None ->
   Search.findSimilarToMemory cos_similarity db embeddingProvider memoryId options
   = Thrown (Error ("No embedding found for memory " +:+ memoryId)))
  /\ (forall sourceEmbedding, stored = Some sourceEmbedding ->
      exists results,
        Search.findSimilarToMemory cos_similarity db embeddingProvider memoryId options
        = Returned results
        /\ Forall (fun r => Search.id (Search.memory r) <> memoryId) results
        /\ forall query,
           Search.searchSimilar cos_similarity (without memoryId db)
             (answering sourceEmbedding embeddingProvider) query
             {| Search.limit := Some (Search.default 5%nat (Search.limit options));
                Search.minSimilarity := Search.minSimilarity options;
                Search.category_filter := Search.category_filter options;
                Search.includeEmbeddings := Some true |}
           = Returned results).
Proof.
  intros stored. unfold Search.findSimilarToMemory. fold stored.
  split; [intros ->; reflexivity|].
  intros sourceEmbedding ->. eexists. split; [reflexivity|]. split; [|reflexivity].
  apply List.Forall_forall. intros r Hr.
  pose proof (rank_ranked cos_similarity sourceEmbedding true
                (Search.default (7 # 10) (Search.minSimilarity options))
                (Search.default 5%nat (Search.limit options))
                (Search.filter_category (Search.category_filter options)
                   (List.filter
                      (fun item =>
                         negb (String.eqb (Search.id (Search.row_memory item)) memoryId))
                      (Search.getMemoriesWithEmbeddings db
                         (Search.provider_part embeddingProvider 0)
                         (Search.provider_part embeddingProvider 1)))))
    as (Hall & _).
  cbv zeta in Hall. rewrite List.Forall_forall in Hall.
  destruct (Hall r Hr) as (Hin & _).
  unfold Search.scored in Hin. apply in_map_iff in Hin as (item & <- & Hitem). simpl.
  assert (Hsrc : negb (String.eqb (Search.id (Search.row_memory item)) memoryId) = true).
  { unfold Search.filter_category in Hitem.
    destruct (Search.category_filter options) as [c|];
      [destruct (truthy_string c)|];
      repeat (apply filter_In in Hitem as [Hitem ?]); try assumption;
      apply filter_In in Hitem as [_ ?]; assumption. }
  apply negb_true_iff, String.eqb_neq in Hsrc. exact Hsrc.
Qed.

Lemma findSimilarToMemory_witness :
  Search.findSimilarToMemory Scenario.same_direction (Scenario.five []) Scenario.nomic
    "m0" (Scenario.plain None None)
  = Thrown (Error "No embedding found for memory m0").
Proof.
  apply (findSimilarToMemory_ranks_against_source Scenario.same_direction
           (Scenario.five []) Scenario.nomic "m0" (Scenario.plain None None)).
  reflexivity.
Defined.

(** ** SemanticSearchService: clustering *)

Section ClusterFacts.
Import Base Search.
Variable cos_similarity : EmbeddingVector -> EmbeddingVector -> number.
Variable threshold : Q.
Variable minClusterSize : Z.

Lemma elem_of_ids (x : string) (l : list SemanticSearchResult) :
  x ∈ List.map (fun r => id (memory r)) l <-> exists r, id (memory r) = x /\ In r l.
Proof. rewrite list_elem_of_In. apply in_map_iff. Qed.

(** One scan appends members that were not processed before, are not the
    seed and are pairwise different; it marks exactly them as processed and
    adds their similarities to the running total. *)
Lemma cluster_scan_spec (item : MemoryWithEmbedding) :
  forall others processed members total processed' members' total',
    cluster_scan cos_similarity item threshold others processed members total
    = (processed', members', total') ->
    exists added,
      members' = members ++ added
      /\ NoDup (List.map (fun r => id (memory r)) added)
      /\ (forall x, x ∈ List.map (fun r => id (memory r)) added ->
                    (x ∉ processed) /\ x <> id (row_memory item))
      /\ (forall x, x ∈ processed' <->
                    x ∈ processed \/ x ∈ List.map (fun r => id (memory r)) added)
      /\ Forall (joined threshold) added
      /\ (total' == total + total_similarity added)%Q.
Proof.
  induction others as [|other rest IH];
    intros processed members total processed' members' total' Hscan; simpl in Hscan.
  - injection Hscan as <- <- <-. exists []. rewrite app_nil_r. simpl.
    split; [reflexivity|]. split; [constructor|].
    split; [intros x Hx; inversion Hx|].
    split; [intros x; split; [now left | intros [H|H]; [exact H | inversion H]]|].
    split; [constructor | lra].
  - destruct (String.eqb (id (row_memory other)) (id (row_memory item))) eqn:Hseed;
      simpl in Hscan; [now apply IH|].
    case_bool_decide as Hproc; simpl in Hscan; [now apply IH|].
    destruct (cos_similarity (row_embedding item) (row_embedding other)) as [|sim];
      [now apply IH|].
    destruct (Qle_bool threshold sim) eqn:Hsim; [|now apply IH].
    apply IH in Hscan as (added & -> & Hnodup & Hfresh & Hproc' & Hjoined & Htotal).
    apply String.eqb_neq in Hseed. apply Qle_bool_iff in Hsim.
    exists ({| memory := row_memory other; similarity := Fin sim;
               embedding := row_embedding other |} :: added).
    rewrite <- app_assoc. simpl.
    split; [reflexivity|]. split; [|split; [|split; [|split]]].
    + apply NoDup_cons. split; [|exact Hnodup].
      intros Hin. apply Hfresh in Hin as [Hin _].
      apply Hin, elem_of_union. left. now apply elem_of_singleton.
    + intros x Hx. apply elem_of_cons in Hx as [->|Hx]; [split; assumption|].
      apply Hfresh in Hx as [Hx Hne]. split; [|exact Hne].
      intros Hp. apply Hx, elem_of_union. now right.
    + intros x. rewrite Hproc', elem_of_union, elem_of_singleton, elem_of_cons. tauto.
    + constructor; [|exact Hjoined]. exists sim. split; [reflexivity|exact Hsim].
    + unfold similarity_value at 1. simpl. rewrite Htotal. lra.
Qed.

(** The outer loop keeps the clusters well formed and their members, all
    processed, free of repeated ids. *)
Lemma cluster_loop_spec (all : list MemoryWithEmbedding) :
  forall items processed clusters,
    NoDup (all_member_ids clusters) ->
    (forall x, x ∈ all_member_ids clusters -> x ∈ processed) ->
    Forall (well_formed threshold minClusterSize) clusters ->
    let result :=
      cluster_loop cos_similarity all threshold minClusterSize items processed clusters in
    NoDup (all_member_ids result)
    /\ Forall (well_formed threshold minClusterSize) result.
Proof.
  induction items as [|item rest IH]; intros processed clusters Hnodup Hsub Hwf; simpl.
  - split; assumption.
  - case_bool_decide as Hproc; [now apply IH|].
    destruct (cluster_scan cos_similarity item threshold all processed
                [{| memory := row_memory item; similarity := Fin 1;
                    embedding := row_embedding item |}] 1)
      as [[processed' members] total] eqn:Hscan.
    apply cluster_scan_spec in Hscan
      as (added & -> & Hadded & Hfresh & Hproc' & Hjoined & Htotal).
    assert (Hsub' : forall x, x ∈ all_member_ids clusters ->
                              x ∈ ({[id (row_memory item)]} ∪ processed' : gset string)).
    { intros x Hx. apply elem_of_union. right. apply Hproc'. left. now apply Hsub. }
    destruct (Z.geb_spec (Z.of_nat (List.length
                ([{| memory := row_memory item; similarity := Fin 1;
                     embedding := row_embedding item |}] ++ added))) minClusterSize)
      as [Hbig|Hsmall]; [|now apply IH].
    cbn [app] in Hbig |- *.
    apply IH.
    + unfold all_member_ids. rewrite flat_map_app. simpl. rewrite app_nil_r.
      apply NoDup_app. split; [exact Hnodup|]. split.
      * intros x Hx. unfold member_ids. simpl. intros Hin.
        apply elem_of_cons in Hin as [->|Hin].
        -- apply Hproc. now apply Hsub.
        -- apply Hfresh in Hin as [Hin _]. apply Hin. now apply Hsub.
      * unfold member_ids. simpl. apply NoDup_cons. split; [|exact Hadded].
        intros Hin. now apply Hfresh in Hin as [_ Hin].
    + intros x Hx. unfold all_member_ids in Hx. rewrite flat_map_app in Hx.
      apply elem_of_app in Hx as [Hx|Hx]; [now apply Hsub'|].
      simpl in Hx. rewrite app_nil_r in Hx. unfold member_ids in Hx. simpl in Hx.
      apply elem_of_cons in Hx as [->|Hx];
        [apply elem_of_union; left; now apply elem_of_singleton|].
      apply elem_of_union. right. apply Hproc'. now right.
    + apply Forall_app. split; [exact Hwf|]. constructor; [|constructor].
      unfold well_formed. simpl cluster. simpl avgSimilarity.
      split; [lia|]. split; [eauto|].
      rewrite Htotal. simpl. unfold similarity_value at 1. simpl. reflexivity.
Qed.

End ClusterFacts.

Lemma NoDup_flat_map_disjoint {A : Type} (f : A -> list string) (cs : list A) :
  NoDup (flat_map f cs) ->
  forall i j ci cj, i <> j -> cs !! i = Some ci -> cs !! j = Some cj ->
  forall x, x ∈ f ci -> x ∉ f cj.
Proof.
  assert (Hin : forall (l : list A) k c x,
             l !! k = Some c -> x ∈ f c -> x ∈ flat_map f l).
  { intros l k c x Hk Hx. apply list_elem_of_In, in_flat_map. exists c.
    split; [|now apply list_elem_of_In].
    apply list_elem_of_In. eapply list_elem_of_lookup_2. eassumption. }
  induction cs as [|c cs IH]; intros Hnd i j ci cj Hij Hi Hj x Hxi Hxj;
    [discriminate|].
  simpl in Hnd. apply NoDup_app in Hnd as (_ & Hsep & Hnd).
  destruct i as [|i], j as [|j]; simpl in Hi, Hj.
  - contradiction.
  - injection Hi as <-. apply (Hsep x Hxi). eapply Hin; eassumption.
  - injection Hj as <-. apply (Hsep x Hxj). eapply Hin; eassumption.
  - apply (IH Hnd i j ci cj ltac:(congruence) Hi Hj x Hxi Hxj).
Qed.

Lemma by_avgSimilarity_key (x y : Search.Cluster) :
  True -> True ->
  Search.positive (Search.by_avgSimilarity x y)
  = negb (Qle_bool (Search.avgSimilarity y) (Search.avgSimilarity x)).
Proof.
  intros _ _. unfold Search.by_avgSimilarity. simpl. f_equal.
  apply eq_true_iff_eq. rewrite !Qle_bool_iff. split; intros H; lra.
Qed.

(** C5. The clusters [clusterMemories] returns share no record id (no id
    occurs twice among all members, so two different clusters are disjoint);
    each has at least [minClusterSize] members; each starts with its seed,
    recorded with similarity [1.0], followed by members recorded with a
    similarity [>= threshold], and its [avgSimilarity] is the mean of the
    recorded similarities; and the averages do not increase along the list. *)
Theorem clusterMemories_disjoint_sized_averaged_sorted
    (cos_similarity : Base.EmbeddingVector -> Base.EmbeddingVector -> Search.number)
    (db : Search.MemoryDatabase) (embeddingProvider : Search.EmbeddingProvider)
    (threshold : option Q) (minClusterSize : option Z) :
  let clusters :=
    Search.clusterMemories cos_similarity db embeddingProvider threshold minClusterSize in
  NoDup (all_member_ids clusters)
  /\ (forall i j ci cj,
        i <> j -> clusters !! i = Some ci -> clusters !! j = Some cj ->
        forall x, x ∈ member_ids ci -> x ∉ member_ids cj)
  /\ Forall (fun c =>
               Search.default 2 minClusterSize
               <= Z.of_nat (List.length (Search.cluster c))) clusters
  /\ Forall (fun c =>
               (exists seed rest,
                   Search.cluster c = seed :: rest
                   /\ Search.similarity seed = Search.Fin 1
                   /\ Forall (fun r => exists q,
                                Search.similarity r = Search.Fin q
                                /\ (Search.default (8 # 10) threshold <= q)%Q) rest)
               /\ (Search.avgSimilarity c ==
                   total_similarity (Search.cluster c)
                   / inject_Z (Z.of_nat (List.length (Search.cluster c))))%Q) clusters
  /\ StronglySorted
       (fun a b => (Search.avgSimilarity b <= Search.avgSimilarity a)%Q) clusters.
Proof.
  intros clusters. unfold Search.clusterMemories in clusters.
  set (rows := Search.getMemoriesWithEmbeddings db
                 (Search.provider_part embeddingProvider 0)
                 (Search.provider_part embeddingProvider 1)) in clusters.
  set (built := Search.cluster_loop cos_similarity rows
                  (Search.default (8 # 10) threshold) (Search.default 2 minClusterSize)
                  rows ∅ []) in clusters.
  destruct (cluster_loop_spec cos_similarity (Search.default (8 # 10) threshold)
              (Search.default 2 minClusterSize) rows rows ∅ [])
    as [Hnodup Hwf]; [constructor | intros x Hx; inversion Hx | constructor |].
  fold built in Hnodup, Hwf.
  assert (Hperm : Permutation clusters built) by apply sort_perm.
  assert (Hnodup' : NoDup (all_member_ids clusters)).
  { unfold all_member_ids. now rewrite Hperm. }
  assert (Hwf' : Forall (well_formed (Search.default (8 # 10) threshold)
                           (Search.default 2 minClusterSize)) clusters).
  { eapply Permutation_Forall; [symmetry; exact Hperm | exact Hwf]. }
  split; [exact Hnodup'|].
  split; [now apply NoDup_flat_map_disjoint|].
  split; [eapply Forall_impl; [exact Hwf'|]; intros c (H & _); exact H|].
  split; [eapply Forall_impl; [exact Hwf'|]; intros c (_ & H1 & H2); split; assumption|].
  apply (sort_sorted Search.by_avgSimilarity Search.avgSimilarity (fun _ => True)
           by_avgSimilarity_key).
  apply List.Forall_forall. intros; exact I.
Qed.

Lemma clusterMemories_witness :
  match Search.clusterMemories Scenario.same_direction (Scenario.five [])
          Scenario.nomic (Some (8 # 10)%Q) (Some 1) with
  | c0 :: c1 :: _ => "m3" ∈ member_ids c0 /\ "m3" ∉ member_ids c1
  | _ => False
  end.
Proof.
  pose proof (clusterMemories_disjoint_sized_averaged_sorted Scenario.same_direction
                (Scenario.five []) Scenario.nomic (Some (8 # 10)%Q) (Some 1))
    as (_ & Hdisjoint & _).
  cbv zeta in Hdisjoint.
  assert (Hids : List.map member_ids
                   (Search.clusterMemories Scenario.same_direction (Scenario.five [])
                      Scenario.nomic (Some (8 # 10)%Q) (Some 1))
                 = [["m3"]; ["m1"; "m2"; "m4"; "m5"]])
    by (vm_compute; reflexivity).
  destruct (Search.clusterMemories _ _ _ _ _) as [|c0 [|c1 rest]];
    [discriminate Hids..|].
  injection Hids as H0 _.
  assert (Hm3 : "m3" ∈ member_ids c0).
  { rewrite H0. apply list_elem_of_In. left. reflexivity. }
  split; [exact Hm3|].
  exact (Hdisjoint 0%nat 1%nat c0 c1 ltac:(discriminate) eq_refl eq_refl "m3" Hm3).
Defined.

(** The scenario of the specification: four records alike, one apart,
    [threshold = 0.8], [minClusterSize = 2]. *)
Example clusterMemories_four_of_five :
  List.map (fun c => (member_ids c, Qred (Search.avgSimilarity c)))
    (Search.clusterMemories Scenario.same_direction (Scenario.five []) Scenario.nomic
       (Some (8 # 10)%Q) (Some 2))
  = [(["m1"; "m2"; "m4"; "m5"], (77 # 80)%Q)].
Proof. vm_compute. reflexivity. Qed.

(** ** SemanticSearchService: hybrid search *)

Section LexicalScoreFacts.
Import Search.
Local Open Scope Q_scope.

Lemma ratio_of_nat (a : Z) (n : nat) :
  (0 < n)%nat -> inject_Z a / inject_Z (Z.of_nat n) == a # Pos.of_nat n.
Proof.
  intros Hn. destruct n as [|n]; [lia|].
  unfold Qdiv, Qinv, inject_Z. simpl Qnum.
  rewrite <- Pos.of_nat_succ. simpl.
  unfold Qeq, Qmult; simpl. lia.
Qed.

Lemma normalizedScore_eq (len index : nat) :
  (index < len)%nat ->
  normalizedScore len index == (Z.of_nat len - Z.of_nat index) # Pos.of_nat len.
Proof.
  intros H. unfold normalizedScore. rewrite ratio_of_nat by lia.
  apply Q.max_r. unfold Qle. simpl. lia.
Qed.

Lemma normalizedScore_pos (len index : nat) :
  (index < len)%nat -> 0 < normalizedScore len index.
Proof. intros H. rewrite normalizedScore_eq by assumption. unfold Qlt. simpl. lia. Qed.

(** A later rank scores strictly lower. *)
Lemma normalizedScore_decreasing (len i j : nat) :
  (i < j)%nat -> (j < len)%nat -> normalizedScore len j < normalizedScore len i.
Proof. intros. rewrite !normalizedScore_eq by lia. unfold Qlt. simpl. nia. Qed.

Lemma normalizedScore_above_cut (len index : nat) :
  (index < len)%nat ->
  (1 # 10 < normalizedScore len index <-> (index < above_cut len)%nat).
Proof.
  intros H. rewrite normalizedScore_eq by lia. unfold Qlt, above_cut. cbn [Qnum Qden].
  assert (Hpos : Z.pos (Pos.of_nat len) = Z.of_nat len) by lia.
  rewrite Hpos.
  pose proof (Nat.div_mod_eq (9 * len + 9) 10) as Hd.
  pose proof (Nat.mod_upper_bound (9 * len + 9) 10 ltac:(lia)) as Hm.
  set (q := ((9 * len + 9) / 10)%nat) in *.
  set (r := ((9 * len + 9) mod 10)%nat) in *.
  split; intros; lia.
Qed.

Lemma above_cut_le (len : nat) : (above_cut len <= len)%nat.
Proof.
  unfold above_cut.
  pose proof (Nat.div_mod_eq (9 * len + 9) 10) as Hd.
  pose proof (Nat.mod_upper_bound (9 * len + 9) 10 ltac:(lia)) as Hm.
  set (q := ((9 * len + 9) / 10)%nat) in *.
  set (r := ((9 * len + 9) mod 10)%nat) in *.
  lia.
Qed.

(** [textScoreMap] leaves the ids it was not given untouched ... *)
Lemma textScores_other (len : nat) (x : string) :
  forall results index m,
    x ∉ List.map id results ->
    textScores len index results m !! x = m !! x.
Proof.
  induction results as [|memory rest IH]; intros index m Hx; simpl; [reflexivity|].
  simpl in Hx. apply not_elem_of_cons in Hx as [Hne Hx].
  rewrite IH by assumption. now apply lookup_insert_ne.
Qed.

(** ... and, the ids being distinct, maps the id at rank [k] to the score of
    rank [k]. *)
Lemma textScores_lookup (len : nat) :
  forall results index m k memory,
    NoDup (List.map id results) ->
    results !! k = Some memory ->
    textScores len index results m !! id memory
    = Some (normalizedScore len (index + k)).
Proof.
  induction results as [|first rest IH]; intros index m k memory Hnd Hk;
    [discriminate|].
  simpl in Hnd. apply NoDup_cons in Hnd as [Hfirst Hnd]. simpl.
  destruct k as [|k]; simpl in Hk.
  - injection Hk as <-. rewrite textScores_other by assumption.
    rewrite lookup_insert_eq. now rewrite Nat.add_0_r.
  - rewrite (IH (S index) _ k memory Hnd Hk). f_equal. f_equal. lia.
Qed.

(** [Array.from(new Set(ids))] lists each id once, and exactly the ids given. *)
Lemma set_of_spec (ids : list string) :
  forall seen,
    NoDup (set_of seen ids)
    /\ forall x, x ∈ set_of seen ids <-> x ∈ ids /\ x ∉ seen.
Proof.
  induction ids as [|a ids IH]; intros seen; simpl.
  - split; [constructor|]. intros x. split; [inversion 1|intros [H _]; inversion H].
  - case_bool_decide as Ha.
    + destruct (IH seen) as [Hnd Hmem]. split; [exact Hnd|].
      intros x. rewrite Hmem, elem_of_cons. split; [tauto|].
      intros [[->|Hx] Hs]; [contradiction | tauto].
    + destruct (IH ({[a]} ∪ seen)) as [Hnd Hmem]. split.
      * apply NoDup_cons. split; [|exact Hnd].
        rewrite Hmem, elem_of_union, elem_of_singleton. tauto.
      * intros x. rewrite !elem_of_cons, Hmem, elem_of_union, elem_of_singleton.
        destruct (decide (x = a)) as [->|Hne]; tauto.
Qed.

End LexicalScoreFacts.

(** Two arrangements of the same elements, one descending and one strictly
    descending by a key, are the same list. *)
Lemma descending_unique {A : Type} (key : A -> Q) (l1 : list A) :
  forall l2,
    Permutation l1 l2 ->
    StronglySorted (fun a b => (key b <= key a)%Q) l1 ->
    StronglySorted (fun a b => (key b < key a)%Q) l2 ->
    l1 = l2.
Proof.
  induction l1 as [|x l1 IH]; intros l2 Hperm Hs1 Hs2.
  - apply Permutation_nil in Hperm. now subst.
  - destruct l2 as [|y l2]; [symmetry in Hperm; now apply Permutation_nil_cons in Hperm|].
    inversion Hs1 as [|? ? Hs1' Hx]; subst. inversion Hs2 as [|? ? Hs2' Hy]; subst.
    assert (Hxy : x = y).
    { assert (Hx2 : In x (y :: l2)) by (eapply Permutation_in; [exact Hperm | now left]).
      destruct Hx2 as [Heq|Hx2]; [now symmetry|].
      assert (Hy1 : In y (x :: l1)).
      { eapply Permutation_in; [symmetry; exact Hperm | now left]. }
      destruct Hy1 as [Heq|Hy1]; [exact Heq|].
      rewrite List.Forall_forall in Hx, Hy.
      pose proof (Hx y Hy1). pose proof (Hy x Hx2). lra. }
    subst y. f_equal. apply IH; [|assumption..].
    eapply Permutation_cons_inv. exact Hperm.
Qed.

Lemma StronglySorted_lookup {A : Type} (R : A -> A -> Prop) (l : list A) :
  (forall i j x y, (i < j)%nat -> l !! i = Some x -> l !! j = Some y -> R x y) ->
  StronglySorted R l.
Proof.
  induction l as [|a l IH]; intros H; constructor.
  - apply IH. intros i j x y Hij Hi Hj. apply (H (S i) (S j)); [lia|assumption..].
  - apply List.Forall_forall. intros y Hy.
    apply list_elem_of_In, list_elem_of_lookup in Hy as [j Hj].
    apply (H 0%nat (S j)); [lia|reflexivity|exact Hj].
Qed.

Lemma map_fmap {A B : Type} (f : A -> B) (l : list A) : List.map f l = f <$> l.
Proof. reflexivity. Qed.

Lemma lookup_map {A B : Type} (f : A -> B) (l : list A) (i : nat) (y : B) :
  List.map f l !! i = Some y <-> exists x, l !! i = Some x /\ y = f x.
Proof.
  rewrite map_fmap, list_lookup_fmap_Some. split; intros (x & H1 & H2); eauto.
Qed.

Lemma by_combinedScore_key (x y : Search.HybridSearchResult) :
  True -> True ->
  Search.positive (Search.by_combinedScore x y)
  = negb (Qle_bool (Search.combinedScore y) (Search.combinedScore x)).
Proof.
  intros _ _. unfold Search.by_combinedScore. simpl. f_equal.
  apply eq_true_iff_eq. rewrite !Qle_bool_iff. split; intros H; lra.
Qed.

Section HybridFacts.
Import Base Search.
Local Open Scope Q_scope.

Variable semanticResults : list SemanticSearchResult.
Variable textResults : list Memory.
Variables (includeEmbeddings : bool) (now : Z).
Hypothesis distinct_ids : NoDup (List.map id textResults).

(** The entry built for an id when [semanticWeight = 0], [textWeight = 1]
    and recency boosting is off. *)
Local Abbreviation entry :=
  (hybrid_entry semanticResults textResults
     (semanticScores semanticResults)
     (textScores (List.length textResults) 0 textResults ∅)
     1 0 false includeEmbeddings now).

Local Abbreviation allMemoryIds :=
  (set_of ∅ (List.map (fun r => id (memory r)) semanticResults
             ++ List.map id textResults)).

Local Abbreviation kept :=
  (fun result : HybridSearchResult => negb (Qle_bool (combinedScore result) (1 # 10))).

Lemma entry_combinedScore (x : string) :
  combinedScore (entry x) == textScore (entry x).
Proof. unfold hybrid_entry. simpl. ring. Qed.

Lemma entry_textScore_at (k : nat) (m : Memory) :
  textResults !! k = Some m ->
  textScore (entry (id m)) = normalizedScore (List.length textResults) k.
Proof.
  intros Hk. unfold hybrid_entry. simpl.
  rewrite (textScores_lookup _ textResults 0 ∅ k m distinct_ids Hk). simpl.
  pose proof (normalizedScore_pos (List.length textResults) k
                (lookup_lt_Some _ _ _ Hk)) as Hpos.
  destruct (Qeq_bool (normalizedScore (List.length textResults) k) 0) eqn:Hz;
    [|reflexivity].
  apply Qeq_bool_iff in Hz. lra.
Qed.

Lemma entry_textScore_other (x : string) :
  x ∉ List.map id textResults -> textScore (entry x) = 0.
Proof.
  intros Hx. unfold hybrid_entry. simpl.
  rewrite textScores_other by assumption. now rewrite lookup_empty.
Qed.

Lemma entry_id (x : string) :
  x ∈ List.map (fun r => id (memory r)) semanticResults ++ List.map id textResults ->
  result_id (entry x) = x.
Proof.
  intros Hx. unfold result_id, hybrid_entry. simpl.
  destruct (List.find (fun r => String.eqb (id (memory r)) x) semanticResults)
    as [r|] eqn:Hs.
  - apply find_some in Hs as [_ Hs]. now apply String.eqb_eq.
  - destruct (List.find (fun r => String.eqb (id r) x) textResults) as [m|] eqn:Ht.
    + apply find_some in Ht as [_ Ht]. now apply String.eqb_eq.
    + exfalso. apply elem_of_app in Hx as [Hx|Hx];
        apply list_elem_of_In, in_map_iff in Hx as (y & Hy & Hin).
      * pose proof (find_none _ _ Hs y Hin) as Hn. simpl in Hn.
        apply String.eqb_neq in Hn. contradiction.
      * pose proof (find_none _ _ Ht y Hin) as Hn. simpl in Hn.
        apply String.eqb_neq in Hn. contradiction.
Qed.

(** An id survives the [combinedScore > 0.1] filter exactly when it is a
    lexical result ranked above the cut. *)
Lemma kept_at (k : nat) (m : Memory) :
  textResults !! k = Some m ->
  kept (entry (id m)) = true <-> (k < above_cut (List.length textResults))%nat.
Proof.
  intros Hk.
  rewrite <- (normalizedScore_above_cut _ _ (lookup_lt_Some _ _ _ Hk)).
  rewrite <- (entry_textScore_at k m Hk), <- entry_combinedScore.
  rewrite negb_true_iff. split.
  - intros Hle. apply Qnot_le_lt. intros H. apply Qle_bool_iff in H. congruence.
  - intros Hlt. destruct (Qle_bool _ _) eqn:Hle; [|reflexivity].
    apply Qle_bool_iff in Hle. lra.
Qed.

Lemma kept_other (x : string) :
  x ∉ List.map id textResults -> kept (entry x) = false.
Proof.
  intros Hx. apply negb_false_iff, Qle_bool_iff.
  rewrite entry_combinedScore, (entry_textScore_other x Hx). lra.
Qed.

Lemma lookup_text_id (k : nat) (x : string) :
  List.map id textResults !! k = Some x <->
  exists m, textResults !! k = Some m /\ id m = x.
Proof.
  rewrite lookup_map. split; intros (m & H1 & H2); eauto.
Qed.

(** With the semantic weight at zero the survivors, sorted, are the lexical
    results above the cut, in lexical order. *)
Lemma lexical_only_sorted :
  sort by_combinedScore (List.filter kept (List.map entry allMemoryIds))
  = List.map entry
      (take (above_cut (List.length textResults)) (List.map id textResults)).
Proof.
  apply (descending_unique combinedScore).
  - rewrite sort_perm, filter_map_swap. apply Permutation_map.
    destruct (set_of_spec (List.map (fun r => id (memory r)) semanticResults
                           ++ List.map id textResults) ∅) as [Hnd Hmem].
    apply NoDup_Permutation.
    + apply NoDup_ListNoDup, List.NoDup_filter, NoDup_ListNoDup, Hnd.
    + eapply sublist_NoDup; [exact distinct_ids | apply sublist_take].
    + intros x. split.
      * intros Hx. apply list_elem_of_In, filter_In in Hx as [Hin Hkept].
        destruct (decide (x ∈ List.map id textResults)) as [Hx|Hx];
          [|rewrite (kept_other x Hx) in Hkept; discriminate].
        apply list_elem_of_lookup in Hx as [k Hk].
        apply list_elem_of_lookup. exists k. apply lookup_take_Some.
        split; [exact Hk|].
        apply lookup_text_id in Hk as (m & Hk & <-). now apply (kept_at k m Hk).
      * intros Hx. apply list_elem_of_lookup in Hx as [k Hk].
        apply lookup_take_Some in Hk as [Hk Hlt].
        pose proof Hk as Hin.
        apply lookup_text_id in Hk as (m & Hk & <-).
        apply list_elem_of_In, filter_In. split.
        -- apply list_elem_of_In, Hmem. split; [|apply not_elem_of_empty].
           apply elem_of_app. right. apply list_elem_of_lookup. now exists k.
        -- now apply (kept_at k m Hk).
  - apply (sort_sorted by_combinedScore combinedScore (fun _ => True)
             by_combinedScore_key).
    apply List.Forall_forall. intros; exact I.
  - apply StronglySorted_lookup. intros i j a b Hij Hi Hj.
    apply lookup_map in Hi as (x & Hx & ->). apply lookup_map in Hj as (y & Hy & ->).
    apply lookup_take_Some in Hx as [Hx _]. apply lookup_take_Some in Hy as [Hy _].
    apply lookup_text_id in Hx as (mx & Hx & <-).
    apply lookup_text_id in Hy as (my & Hy & <-).
    rewrite !entry_combinedScore.
    rewrite (entry_textScore_at i mx Hx), (entry_textScore_at j my Hy).
    apply normalizedScore_decreasing; [exact Hij|].
    eapply lookup_lt_Some. exact Hy.
Qed.

End HybridFacts.

(** C6. With [semanticWeight = 0], [textWeight = 1] and recency boosting off,
    [hybridSearch] fails only when the query cannot be embedded.  Otherwise
    its results are, in the lexical order, the first lexical candidates: as
    many as [limit] allows among those that score above the [0.1] cut; the
    result at place [i] carries the text score of lexical rank [i],
    [max(0, (N - i) / N)], which is also its combined score.  The lexical
    candidates are the rows of [searchMemories(query, limit * 2)], which have
    distinct ids. *)
Theorem hybridSearch_lexical_only_keeps_lexical_order
    (cos_similarity : Base.EmbeddingVector -> Base.EmbeddingVector -> Search.number)
    (db : Search.MemoryDatabase) (embeddingProvider : Search.EmbeddingProvider)
    (query : string) (options : Search.SemanticSearchOptions) (now : Z) :
  let limit_ := Search.default 10%nat (Search.limit options) in
  let textResults := Search.searchMemories db query (limit_ * 2)%nat in
  let len := List.length textResults in
  NoDup (List.map Search.id textResults) ->
  match Search.hybridSearch cos_similarity db embeddingProvider query
          (Scenario.lexical_only options) now with
  | Thrown e => Search.generateEmbedding embeddingProvider query = Thrown e
  | Returned results =>
      List.map result_id results
      = take (Nat.min limit_ (above_cut len)) (List.map Search.id textResults)
      /\ forall i r, results !! i = Some r ->
           Search.textScore r = Search.normalizedScore len i
           /\ (Search.combinedScore r == Search.textScore r)%Q
  end.
Proof.
  intros limit_ textResults len Hdistinct.
  unfold Search.hybridSearch, Scenario.lexical_only.
  cbn [Search.base_options Search.textWeight Search.semanticWeight
       Search.boostRecentMemories Search.default].
  fold limit_. fold textResults.
  destruct (Search.searchSimilar cos_similarity db embeddingProvider query _)
    as [semanticResults|e] eqn:Hsem.
  - rewrite (lexical_only_sorted semanticResults textResults _ now Hdistinct).
    unfold slice0. fold len. split.
    + rewrite <- firstn_map, map_map.
      rewrite (map_ext_in _ (fun x => x)), map_id; [apply take_take|].
      intros x Hx. apply (entry_id semanticResults textResults).
      apply elem_of_app. right.
      eapply elem_of_sublist; [apply list_elem_of_In; exact Hx | apply sublist_take].
    + intros i r Hr.
      apply lookup_take_Some in Hr as [Hr _].
      apply lookup_map in Hr as (x & Hx & ->).
      apply lookup_take_Some in Hx as [Hx _].
      apply lookup_map in Hx as (m & Hm & ->).
      split; [now apply entry_textScore_at | apply entry_combinedScore].
  - unfold Search.searchSimilar in Hsem.
    destruct (Search.generateEmbedding embeddingProvider query); congruence.
Qed.

Lemma hybridSearch_lexical_only_witness :
  match Search.hybridSearch Scenario.same_direction (Scenario.five ["m3"; "m1"; "m9"])
          Scenario.nomic "notes"
          (Scenario.lexical_only (Scenario.plain (Some 2%nat) None)) 0 with
  | Returned results => List.map result_id results = ["m3"; "m1"]
  | Thrown _ => False
  end.
Proof.
  assert (Hdistinct : NoDup (List.map Search.id
            (Search.searchMemories (Scenario.five ["m3"; "m1"; "m9"]) "notes"
               (Search.default 10%nat (Search.limit (Scenario.plain (Some 2%nat) None)) * 2)))).
  { apply NoDup_ListNoDup. repeat constructor; simpl; intuition discriminate. }
  pose proof (hybridSearch_lexical_only_keeps_lexical_order Scenario.same_direction
                (Scenario.five ["m3"; "m1"; "m9"]) Scenario.nomic "notes"
                (Scenario.plain (Some 2%nat) None) 0 Hdistinct) as H.
  destruct (Search.hybridSearch _ _ _ _ _ _) as [results|e].
  - destruct H as [H _]. rewrite H. reflexivity.
  - discriminate H.
Defined.

(** The cut drops the last of ten lexical results even though [limit] would
    admit it: its text score is exactly [0.1]. *)
Example hybridSearch_cut_drops_tenth :
  match Search.hybridSearch Scenario.same_direction
          (Scenario.five ["a"; "b"; "c"; "d"; "e"; "f"; "g"; "h"; "i"; "j"])
          Scenario.nomic "notes"
          (Scenario.lexical_only (Scenario.plain (Some 10%nat) None)) 0 with
  | Returned results =>
      List.map result_id results = ["a"; "b"; "c"; "d"; "e"; "f"; "g"; "h"; "i"]
  | Thrown _ => False
  end.
Proof. vm_compute. reflexivity. Qed.

(* ===================================================================== *)
(** * Further properties                                                  *)
(* ===================================================================== *)

(** ** MemoryEmbeddingCache: round trip, eviction, capacity *)

Section CacheMore.
Context {V : Type}.
Implicit Types (m : Cache.jsmap V) (c : Cache.MemoryEmbeddingCache V).

(** X1. What [set] stored is what [get] returns for that key until the entry
    is older than the TTL, and a miss from then on. *)
Theorem get_after_set c key emb now now' :
  fst (Cache.get (Cache.set c key emb now) key now')
  = if now' - now >? Cache.ttl c then None else Some emb.
Proof.
  unfold Cache.get. rewrite set_lookup. simpl.
  destruct (now' - now >? Cache.ttl c); reflexivity.
Qed.

(** X2. [set] touches no key but its own and the oldest one: below capacity
    every other key reads as before; at capacity the oldest key is dropped
    (also when the key written was already present) and every other key
    reads as before. *)
Theorem set_evicts_only_the_oldest c key emb now k :
  k <> key ->
  Cache.map_get k (Cache.cache (Cache.set c key emb now))
  = if (Z.of_nat (List.length (Cache.cache c)) >=? Cache.maxSize c)
       && match cache_keys c with
          | oldestKey :: _ => truthy_string oldestKey && String.eqb oldestKey k
          | [] => false
          end
    then None
    else Cache.map_get k (Cache.cache c).
Proof.
  intros Hne. unfold Cache.set, cache_keys. simpl.
  rewrite map_get_set_other by congruence.
  destruct (Z.of_nat (List.length (Cache.cache c)) >=? Cache.maxSize c);
    [|reflexivity].
  destruct (Cache.cache c) as [|[oldestKey oldest] rest] eqn:Hc; [reflexivity|].
  cbn [List.map fst andb].
  destruct (truthy_string oldestKey); [|reflexivity]. cbn [andb].
  destruct (String.eqb_spec oldestKey k) as [->|Hk].
  - apply map_get_delete_same.
  - now apply map_get_delete_other.
Qed.

Lemma map_set_keys k e m :
  List.map fst (Cache.map_set k e m)
  = if bool_decide (k ∈ List.map fst m) then List.map fst m
    else List.map fst m ++ [k].
Proof.
  induction m as [|[k' e'] m IH]; simpl; [reflexivity|].
  destruct (String.eqb_spec k' k) as [->|Hk]; simpl.
  - rewrite bool_decide_eq_true_2; [reflexivity | apply elem_of_cons; now left].
  - rewrite IH. case_bool_decide as Hin.
    + rewrite bool_decide_eq_true_2; [reflexivity | apply elem_of_cons; now right].
    + rewrite bool_decide_eq_false_2; [reflexivity|].
      intros H. apply elem_of_cons in H as [->|H]; [congruence | contradiction].
Qed.

Lemma map_delete_absent k m :
  k ∉ List.map fst m -> Cache.map_delete k m = m.
Proof.
  induction m as [|[k' e'] m IH]; simpl; intros Hk; [reflexivity|].
  apply not_elem_of_cons in Hk as [Hne Hk].
  destruct (String.eqb_spec k' k) as [->|_]; [contradiction|]. simpl.
  now rewrite IH.
Qed.

Lemma set_within_capacity c key emb now :
  1 <= Cache.maxSize c -> truthy_string key = true ->
  within_capacity c -> within_capacity (Cache.set c key emb now).
Proof.
  intros Hmax Hkey (Hnd & Htruthy & Hsize).
  unfold within_capacity, cache_keys, Cache.size, Cache.set in *. simpl.
  set (m := if Z.of_nat (List.length (Cache.cache c)) >=? Cache.maxSize c
            then match Cache.cache c with
                 | (oldestKey, _) :: _ =>
                     if truthy_string oldestKey
                     then Cache.map_delete oldestKey (Cache.cache c)
                     else Cache.cache c
                 | [] => Cache.cache c
                 end
            else Cache.cache c).
  assert (Hm : NoDup (List.map fst m)
               /\ Forall (fun k => truthy_string k = true) (List.map fst m)
               /\ Z.of_nat (List.length m) < Cache.maxSize c).
  { subst m.
    destruct (Z.geb_spec (Z.of_nat (List.length (Cache.cache c))) (Cache.maxSize c))
      as [Hfull|Hroom]; [|repeat split; [assumption..|lia]].
    destruct (Cache.cache c) as [|[oldestKey oldest] rest]; [simpl in *; lia|].
    simpl in Hnd, Htruthy, Hsize.
    apply NoDup_cons in Hnd as [Hfresh Hnd].
    inversion Htruthy as [|? ? Hold Hrest]; subst. rewrite Hold.
    simpl. rewrite String.eqb_refl. simpl.
    rewrite map_delete_absent by assumption.
    repeat split; [assumption..|lia]. }
  destruct Hm as (Hnd' & Htruthy' & Hsize').
  rewrite map_set_keys.
  assert (Hlen : List.length (Cache.map_set key
                    {| Cache.embedding := emb; Cache.timestamp := now |} m)
                 = List.length (List.map fst (Cache.map_set key
                    {| Cache.embedding := emb; Cache.timestamp := now |} m)))
    by now rewrite length_map.
  rewrite Hlen, map_set_keys. clear Hlen.
  case_bool_decide as Hin.
  - repeat split; [assumption..|]. rewrite length_map. lia.
  - repeat split.
    + apply NoDup_app. repeat split; [assumption| |apply NoDup_singleton].
      intros x Hx Hx'. apply list_elem_of_singleton in Hx'. now subst.
    + apply Forall_app. split; [assumption|]. now constructor.
    + rewrite length_app, length_map. simpl. lia.
Qed.

(** X3. A cache made with a capacity of at least one, and written only under
    non-empty keys, keeps its keys distinct and never holds more entries
    than its capacity. *)
Theorem cache_never_exceeds_capacity (maxSize ttlMs : option Z)
    (writes : list (string * V * Z)) :
  1 <= Cache.maxSize (Cache.new (V:=V) maxSize ttlMs) ->
  Forall (fun w => truthy_string (fst (fst w)) = true) writes ->
  let c := set_all (Cache.new maxSize ttlMs) writes in
  NoDup (cache_keys c) /\ Cache.size c <= Cache.maxSize c.
Proof.
  intros Hmax Hkeys.
  assert (Hstart : within_capacity (Cache.new (V:=V) maxSize ttlMs)).
  { unfold within_capacity, cache_keys, Cache.size. simpl.
    repeat split; [constructor | constructor | simpl in Hmax; lia]. }
  assert (Hgen : forall c0, 1 <= Cache.maxSize c0 -> within_capacity c0 ->
             within_capacity (set_all c0 writes)
             /\ Cache.maxSize (set_all c0 writes) = Cache.maxSize c0).
  { induction Hkeys as [|[[key emb] now] writes Hkey Hkeys IH]; intros c0 Hc0 Hwf;
      [split; [assumption|reflexivity]|].
    simpl in Hkey. unfold set_all. simpl. fold (set_all (Cache.set c0 key emb now) writes).
    destruct (IH (Cache.set c0 key emb now)) as [Hwf' Hmax'];
      [exact Hc0 | now apply set_within_capacity |].
    split; [exact Hwf' | exact Hmax']. }
  destruct (Hgen _ Hmax Hstart) as [(Hnd & _ & Hsize) _].
  split; assumption.
Qed.

End CacheMore.

Lemma get_after_set_witness :
  fst (Cache.get Scenario.warm (Base.getCacheKey Scenario.balanced "hello") 1000)
  = Some (Some [1%Q]).
Proof.
  exact (get_after_set (Cache.new None None)
           (Base.getCacheKey Scenario.balanced "hello") (Some [1%Q]) 0 1000).
Defined.

(** Keys made by [getCacheKey] are never empty. *)
Lemma getCacheKey_truthy (cfg : Base.EmbeddingConfig) (text : string) :
  truthy_string (Base.getCacheKey cfg text) = true.
Proof.
  unfold Base.getCacheKey. destruct (Base.provider cfg); reflexivity.
Qed.

Lemma set_evicts_only_the_oldest_witness :
  let full := Cache.set (Cache.set (Cache.new (Some 2) None) "a" 1%nat 0) "b" 2%nat 1 in
  Cache.map_get "a" (Cache.cache (Cache.set full "b" 3%nat 2)) = None
  /\ Cache.map_get "b" (Cache.cache (Cache.set full "c" 3%nat 2)) = Some (Cache.Entry 2%nat 1).
Proof.
  split.
  - rewrite (set_evicts_only_the_oldest
               (Cache.set (Cache.set (Cache.new (Some 2) None) "a" 1%nat 0) "b" 2%nat 1)
               "b" 3%nat 2 "a"); [reflexivity | discriminate].
  - rewrite (set_evicts_only_the_oldest
               (Cache.set (Cache.set (Cache.new (Some 2) None) "a" 1%nat 0) "b" 2%nat 1)
               "c" 3%nat 2 "b"); [reflexivity | discriminate].
Defined.

Lemma cache_never_exceeds_capacity_witness :
  Cache.size
    (set_all (Cache.new (Some 2) None)
       [(Base.getCacheKey Scenario.balanced "a", Some [1%Q], 0);
        (Base.getCacheKey Scenario.balanced "b", Some [1%Q], 1);
        (Base.getCacheKey Scenario.balanced "c", Some [1%Q], 2)])
  <= 2.
Proof.
  apply (cache_never_exceeds_capacity (Some 2) None
           [(Base.getCacheKey Scenario.balanced "a", Some [1%Q], 0);
            (Base.getCacheKey Scenario.balanced "b", Some [1%Q], 1);
            (Base.getCacheKey Scenario.balanced "c", Some [1%Q], 2)]).
  - simpl. lia.
  - repeat constructor.
Defined.

(** ** retryWithBackoff: first success, and the delays *)

Section RetryMore.
Context {T : Type}.
Variable operation : nat -> outcome T.
Variables maxRetries baseDelay : Z.

Lemma delays_S (n : nat) :
  delays baseDelay (S n) = delays baseDelay n ++ [Base.backoff baseDelay (Z.of_nat (S n))].
Proof. unfold delays. rewrite seq_S, map_app. reflexivity. Qed.

Lemma retry_loop_trace : forall fuel attempt lastError ncalls slept r,
  Base.retry_loop operation maxRetries baseDelay fuel attempt lastError ncalls slept
  = Some r ->
  attempt = Z.of_nat (S ncalls) ->
  attempt <= maxRetries \/ ncalls = 0%nat ->
  (forall j, (j < ncalls)%nat -> exists e, operation j = Thrown e) ->
  slept = delays baseDelay ncalls ->
  (forall j, (j < Base.calls r - 1)%nat -> exists e, operation j = Thrown e)
  /\ Base.sleeps r = delays baseDelay (Base.calls r - 1)
  /\ (forall v, Base.result r = Returned v ->
        (0 < Base.calls r)%nat /\ operation (Base.calls r - 1)%nat = Returned v).
Proof.
  induction fuel as [|fuel IH]; intros attempt lastError ncalls slept r Hrun Hatt Hle
    Hfailed Hslept; [discriminate|].
  simpl in Hrun.
  destruct (Z.leb_spec attempt maxRetries) as [Hin|Hout].
  - destruct (operation ncalls) as [v|e] eqn:Hop.
    + injection Hrun as <-. simpl. rewrite Nat.sub_0_r.
      split; [exact Hfailed|]. split; [exact Hslept|].
      intros v' [= <-]. split; [lia | exact Hop].
    + destruct (Z.eqb_spec attempt maxRetries) as [Hlast|Hmore].
      * injection Hrun as <-. simpl. rewrite Nat.sub_0_r.
        split; [exact Hfailed|]. split; [exact Hslept|].
        unfold Base.exhausted. discriminate.
      * apply IH in Hrun; [exact Hrun | lia | lia | |].
        -- intros j Hj. destruct (decide (j = ncalls)) as [->|Hne]; [eauto|].
           apply Hfailed. lia.
        -- rewrite delays_S, Hslept, Hatt. reflexivity.
  - injection Hrun as <-. simpl.
    destruct Hle as [? | ->]; [lia|]. simpl.
    split; [intros j Hj; lia|]. split; [exact Hslept|].
    unfold Base.exhausted. destruct lastError; discriminate.
Qed.

End RetryMore.

(** With the fuel of [enough_fuel], the loop always ends. *)
Lemma retryWithBackoff_settles {T : Type} (operation : nat -> outcome T)
    (maxRetries baseDelay : option Z) :
  exists r,
    Base.retryWithBackoff (Base.enough_fuel maxRetries) operation maxRetries baseDelay
    = Some r.
Proof.
  unfold Base.retryWithBackoff, Base.enough_fuel.
  set (m := match maxRetries with Some n => n | None => 3 end).
  destruct (Z.le_gt_cases 1 m) as [Hpos|Hneg].
  - destruct (retry_loop_attempts operation m
                (match baseDelay with Some n => n | None => 1000 end)
                (Z.to_nat (m - 1)) (S (Z.to_nat m)) 1 None 0%nat [])
      as (r & Hr & _); [lia..|].
    now exists r.
  - simpl. destruct (Z.leb_spec 1 m) as [?|_]; [lia|]. eauto.
Qed.

(** X4. [retryWithBackoff] stops at the first invocation that returns: every
    invocation before the last one threw, and a returned value is what the
    last invocation returned.  It sleeps once between two invocations, and
    the delay after attempt [n] is [min(baseDelay * 2^(n-1), 10000)]. *)
Theorem retryWithBackoff_stops_at_first_success {T : Type}
    (operation : nat -> outcome T) (maxRetries baseDelay : option Z) :
  exists r,
    Base.retryWithBackoff (Base.enough_fuel maxRetries) operation maxRetries baseDelay
    = Some r
    /\ (forall j, (j < Base.calls r - 1)%nat -> exists e, operation j = Thrown e)
    /\ (forall v, Base.result r = Returned v ->
          (0 < Base.calls r)%nat /\ operation (Base.calls r - 1)%nat = Returned v)
    /\ Base.sleeps r
       = List.map
           (fun k => Z.min (match baseDelay with Some d => d | None => 1000 end
                            * 2 ^ (Z.of_nat (S k) - 1)) 10000)
           (seq 0 (Base.calls r - 1))
    /\ Forall (fun d => d <= 10000) (Base.sleeps r).
Proof.
  destruct (retryWithBackoff_settles operation maxRetries baseDelay) as [r Hrun].
  exists r. split; [exact Hrun|].
  unfold Base.retryWithBackoff in Hrun.
  apply retry_loop_trace in Hrun as (Hfailed & Hsleeps & Hret);
    [|reflexivity | now right | intros j Hj; lia | reflexivity].
  split; [exact Hfailed|]. split; [exact Hret|]. split; [exact Hsleeps|].
  rewrite Hsleeps. unfold delays. apply List.Forall_forall.
  intros d Hd. apply in_map_iff in Hd as (k & <- & _). unfold Base.backoff. lia.
Qed.

(** One failure, then success: two invocations and one sleep of a second. *)
Example retryWithBackoff_second_attempt :
  Base.retryWithBackoff (Base.enough_fuel (Some 3)) flaky_operation_ (Some 3) None
  = Some {| Base.result := Returned 1%nat; Base.calls := 2; Base.sleeps := [1000] |}.
Proof. reflexivity. Qed.

(** ** OllamaEmbeddingProvider: generateEmbedding *)

Section GenerateFacts.
Import Base Ollama Entry.

Lemma set_cache_same (p : OllamaEmbeddingProvider) : set_cache p (cache p) = p.
Proof. destruct p; reflexivity. Qed.

(** A fresh entry holding a vector answers the call at once: nothing is
    requested, queued or written. *)
Lemma generateEmbedding_hit (ollama : client) (now later : Z) (h : nat)
    (p : OllamaEmbeddingProvider) (text : string)
    (c : EmbeddingCache) (e : Cache.entry (option EmbeddingVector))
    (v : EmbeddingVector) :
  cache p = Some c ->
  Cache.map_get (getCacheKey (config p) text) (Cache.cache c) = Some e ->
  Cache.embedding e = Some v ->
  now - Cache.timestamp e <= Cache.ttl c ->
  generateEmbedding ollama now later h p text = Some (Settled (Returned v), p).
Proof.
  intros Hc He Hv Hfresh. unfold generateEmbedding, getCachedEmbedding, Cache.get.
  rewrite Hc, He.
  destruct (Z.gtb_spec (now - Cache.timestamp e) (Cache.ttl c)) as [?|_]; [lia|].
  rewrite Hv. cbv beta iota zeta. do 2 f_equal.
  destruct p; simpl in *. now subst.
Qed.

(** X5. A cache hit short-circuits [generateEmbedding]: with a fresh entry
    for the text it returns the cached vector and leaves the provider as it
    was: no request to Ollama, nothing queued, no cache write. *)
Theorem generateEmbedding_cached_without_request (ollama : client) (now later : Z)
    (h : nat) (p : OllamaEmbeddingProvider) (text : string)
    (c : EmbeddingCache) (e : Cache.entry (option EmbeddingVector))
    (v : EmbeddingVector) :
  cache p = Some c ->
  Cache.map_get (getCacheKey (config p) text) (Cache.cache c) = Some e ->
  Cache.embedding e = Some v ->
  now - Cache.timestamp e <= Cache.ttl c ->
  generateEmbedding ollama now later h p text = Some (Settled (Returned v), p).
Proof. apply generateEmbedding_hit. Qed.

Lemma get_keeps_ttl {V : Type} (c : Cache.MemoryEmbeddingCache V) key now :
  Cache.ttl (snd (Cache.get c key now)) = Cache.ttl c.
Proof.
  unfold Cache.get. destruct (Cache.map_get key (Cache.cache c)); [|reflexivity].
  destruct (_ >? _); reflexivity.
Qed.

(** X6. Without batching and with a cache, a call that missed the cache and
    returned a vector is followed, within the TTL of its cache write, by
    calls that return the same vector without any request to Ollama. *)
Theorem generateEmbedding_at_most_once (ollama ollama' : client)
    (now later now' later' : Z) (h h' : nat)
    (p p1 : OllamaEmbeddingProvider) (text : string)
    (c : EmbeddingCache) (v : EmbeddingVector) :
  cache p = Some c ->
  usesBatching (config p) = false ->
  (forall w, fst (Cache.get c (getCacheKey (config p) text) now) <> Some (Some w)) ->
  generateEmbedding ollama now later h p text = Some (Settled (Returned v), p1) ->
  now' - later <= Cache.ttl c ->
  generateEmbedding ollama' now' later' h' p1 text = Some (Settled (Returned v), p1)
  /\ (requests p < requests p1)%nat.
Proof.
  intros Hc Hdirect Hmiss Hfirst Hfresh.
  unfold generateEmbedding, getCachedEmbedding in Hfirst. rewrite Hc in Hfirst.
  pose proof (get_keeps_ttl c (getCacheKey (config p) text) now) as Httl.
  destruct (Cache.get c (getCacheKey (config p) text) now) as [cached c'] eqn:Hget.
  simpl in Hmiss, Httl.
  assert (Hgo : forall A (hit : EmbeddingVector -> A) (miss : A),
             match cached with Some (Some vector) => hit vector | _ => miss end = miss).
  { intros A hit miss. destruct cached as [[w|]|]; [|reflexivity..].
    exfalso. now apply (Hmiss w). }
  rewrite Hgo in Hfirst. simpl config in Hfirst. rewrite Hdirect in Hfirst.
  destruct (retryWithBackoff _ _ _ _) as [r|] eqn:Hrun; [|discriminate].
  destruct (result r) as [embedding|err] eqn:Hres; [|discriminate].
  injection Hfirst as <- <-.
  apply retry_loop_trace in Hrun as (_ & _ & Hret);
    [|reflexivity | now right | intros j Hj; lia | reflexivity].
  destruct (Hret _ Hres) as [Hcalls _].
  split; [|simpl; lia].
  eapply generateEmbedding_hit.
  - reflexivity.
  - simpl. apply set_lookup.
  - reflexivity.
  - simpl. lia.
Qed.

End GenerateFacts.

Lemma generateEmbedding_cached_witness :
  let p := Entry.set_cache (Ollama.new Scenario.balanced) (Some Scenario.warm) in
  Entry.generateEmbedding Scenario.flaky 1000 1000 0 p "hello"
  = Some (Entry.Settled (Returned [1%Q]), p).
Proof.
  apply (generateEmbedding_cached_without_request Scenario.flaky 1000 1000 0
           (Entry.set_cache (Ollama.new Scenario.balanced) (Some Scenario.warm))
           "hello" Scenario.warm
           {| Cache.embedding := Some [1%Q]; Cache.timestamp := 0 |} [1%Q]);
    [reflexivity | reflexivity | reflexivity | simpl; lia].
Defined.

Lemma generateEmbedding_at_most_once_witness :
  let cfg := Scenario.ollama_config "nomic-embed-text" None (Some true) in
  let p1 :=
    Entry.set_cache (Entry.add_requests (Ollama.new cfg) 2)
      (Some (Cache.set (Cache.new None None) (Base.getCacheKey cfg "hello")
               (Some [1%Q]) 2000)) in
  Entry.generateEmbedding Scenario.flaky 3000 4000 1 p1 "hello"
  = Some (Entry.Settled (Returned [1%Q]), p1).
Proof.
  apply (generateEmbedding_at_most_once Scenario.flaky Scenario.flaky
           1000 2000 3000 4000 0 1
           (Ollama.new (Scenario.ollama_config "nomic-embed-text" None (Some true)))
           _ "hello" (Cache.new None None) [1%Q]);
    [reflexivity | reflexivity | discriminate | reflexivity | simpl; lia].
Defined.

(** ** OllamaEmbeddingProvider: generateBatchEmbeddings *)

Section BatchesFacts.
Import Base Ollama Entry.
Variable ollama : client.
Variable cfg : EmbeddingConfig.

Lemma retried_batch_settles (k0 : nat) (batch : list string) :
  exists r, retried_batch ollama cfg k0 batch = Some r.
Proof. unfold retried_batch. apply retryWithBackoff_settles. Qed.

(** What a retried chunk returns is what one of its requests returned. *)
Lemma retried_batch_returned (k0 : nat) (batch : list string)
    (r : run (list EmbeddingVector)) (vs : list EmbeddingVector) :
  retried_batch ollama cfg k0 batch = Some r ->
  result r = Returned vs ->
  answered ollama batch vs.
Proof.
  unfold retried_batch, retryWithBackoff. intros Hrun Hres.
  apply retry_loop_trace in Hrun as (_ & _ & Hret);
    [|reflexivity | now right | intros j Hj; lia | reflexivity].
  destruct (Hret vs Hres) as [_ Hlast]. split.
  - now apply generateBatchEmbeddingsInternal_returned in Hlast as [Hlen _].
  - eauto.
Qed.

(** [texts.slice(i, i + batchSize)] inside the loop. *)
Lemma slice_chunk (texts : list string) (i b : Z) :
  0 <= i < Z.of_nat (List.length texts) -> 1 <= b ->
  slice texts i (i + b) = take (Z.to_nat b) (drop (Z.to_nat i) texts).
Proof.
  intros Hi Hb. unfold slice.
  destruct (Z.ltb_spec i 0) as [?|_]; [lia|].
  destruct (Z.ltb_spec (i + b) 0) as [?|_]; [lia|].
  rewrite (Z.min_l i) by lia.
  destruct (Z.le_ge_cases (i + b) (Z.of_nat (List.length texts))) as [Hin|Hout].
  - rewrite Z.min_l by lia. f_equal. lia.
  - rewrite Z.min_r by lia.
    rewrite !take_ge; [reflexivity|rewrite length_drop; lia..].
Qed.

Lemma batches_loop_chunks (texts : list string) (b : Z) :
  1 <= b ->
  forall fuel i issued results,
    0 <= i ->
    (Z.to_nat (Z.of_nat (List.length texts) - i) < fuel)%nat ->
    exists o n,
      batches_loop ollama cfg texts b fuel i issued results = Some (o, n)
      /\ (Z.of_nat (List.length texts) <= i -> o = Returned results /\ n = issued)
      /\ forall vs, o = Returned vs ->
         exists cs responses,
           chunked (Z.to_nat b) (drop (Z.to_nat i) texts) cs
           /\ Forall2 (answered ollama) cs responses
           /\ vs = results ++ concat responses.
Proof.
  intros Hb. induction fuel as [|fuel IH]; intros i issued results Hi Hfuel; [lia|].
  simpl. destruct (Z.ltb_spec i (Z.of_nat (List.length texts))) as [Hin|Hout].
  - destruct (retried_batch_settles issued (slice texts i (i + b))) as [r Hr].
    rewrite Hr. destruct (result r) as [batchResults|e] eqn:Hres.
    + destruct (IH (i + b) (issued + calls r)%nat (results ++ batchResults))
        as (o & n & Hloop & _ & Hvs); [lia..|].
      exists o, n. split; [exact Hloop|]. split; [lia|].
      intros vs Ho. destruct (Hvs vs Ho) as (cs & responses & Hcs & Hall & ->).
      pose proof (retried_batch_returned _ _ _ _ Hr Hres) as Hanswered.
      rewrite slice_chunk in Hanswered by lia.
      exists (take (Z.to_nat b) (drop (Z.to_nat i) texts) :: cs), (batchResults :: responses).
      split; [|split].
      * constructor.
        -- intros Hnil. apply (f_equal (@List.length string)) in Hnil.
           rewrite length_drop in Hnil. simpl in Hnil. lia.
        -- rewrite drop_drop. replace (Z.to_nat i + Z.to_nat b)%nat
             with (Z.to_nat (i + b)) by lia. exact Hcs.
      * now constructor.
      * simpl. now rewrite app_assoc.
    + eexists _, _. split; [reflexivity|]. split; [lia|]. discriminate.
  - eexists _, _. split; [reflexivity|]. split; [auto|].
    intros vs [= <-]. exists [], []. rewrite drop_ge by lia.
    split; [constructor|]. split; [constructor|]. simpl. now rewrite app_nil_r.
Qed.

Lemma chunked_lengths {A B : Type} (b : nat) (l : list A) (cs : list (list A))
    (responses : list (list B)) :
  chunked b l cs ->
  Forall2 (fun chunk response => List.length response = List.length chunk)
    cs responses ->
  List.length (concat responses) = List.length l.
Proof.
  intros Hcs. revert responses.
  induction Hcs as [|l cs Hne Hcs IH]; intros responses Hall;
    inversion Hall as [|? response ? responses' Hlen Hall']; subst; [reflexivity|].
  simpl. rewrite length_app, (IH _ Hall'), Hlen.
  rewrite <- (take_drop b l) at 3. now rewrite length_app.
Qed.

End BatchesFacts.

(** X7. With a batch size of at least one, [generateBatchEmbeddings] ends.
    When it returns, the texts were cut into consecutive chunks of
    [batchSize] texts (the last one possibly shorter), each chunk was
    answered by a response with one vector per text, and the result is those
    responses concatenated in order: one vector per input text.  An empty
    input returns the empty list without any request. *)
Theorem generateBatchEmbeddings_one_vector_per_text (ollama : Ollama.client)
    (p : Ollama.OllamaEmbeddingProvider) (texts : list string) :
  let b := num_or (Base.batchSize (Ollama.config p)) 32 in
  1 <= b ->
  exists o p',
    Entry.generateBatchEmbeddings ollama (S (List.length texts)) p texts = Some (o, p')
    /\ (texts = [] -> o = Returned [] /\ p' = p)
    /\ forall vs, o = Returned vs ->
       List.length vs = List.length texts
       /\ exists cs responses,
            chunked (Z.to_nat b) texts cs
            /\ Forall2 (answered ollama) cs responses
            /\ vs = concat responses.
Proof.
  intros b Hb. unfold Entry.generateBatchEmbeddings. fold b.
  destruct (batches_loop_chunks ollama (Ollama.config p) texts b Hb
              (S (List.length texts)) 0 (Ollama.requests p) [])
    as (o & n & Hloop & Hempty & Hvs); [lia..|].
  rewrite Hloop. eexists _, _. split; [reflexivity|]. split.
  - intros ->. destruct Hempty as [-> ->]; [simpl; lia|].
    split; [reflexivity|]. now destruct p.
  - intros vs Ho. destruct (Hvs vs Ho) as (cs & responses & Hcs & Hall & ->).
    simpl in Hcs. split; [|eauto].
    simpl. eapply chunked_lengths; [exact Hcs|].
    eapply Forall2_impl; [exact Hall|]. now intros chunk response [Hlen _].
Qed.

Lemma generateBatchEmbeddings_witness :
  exists o p',
    Entry.generateBatchEmbeddings Scenario.flaky 4 (Ollama.new Scenario.balanced)
      ["a"; "b"; "c"] = Some (o, p')
    /\ forall vs, o = Returned vs -> List.length vs = 3%nat.
Proof.
  destruct (generateBatchEmbeddings_one_vector_per_text Scenario.flaky
              (Ollama.new Scenario.balanced) ["a"; "b"; "c"])
    as (o & p' & Hrun & _ & Hvs); [simpl; lia|].
  exists o, p'. split; [exact Hrun|].
  intros vs Ho. now destruct (Hvs vs Ho) as [Hlen _].
Defined.

(** Three texts in chunks of two: two requests, three vectors. *)
Example generateBatchEmbeddings_three_by_two :
  Entry.generateBatchEmbeddings Scenario.steady 4
    (Ollama.new (Scenario.ollama_config "nomic-embed-text" (Some 2) None))
    ["a"; "b"; "c"]
  = Some (Returned [[1%Q]; [1%Q]; [1%Q]],
          Entry.add_requests
            (Ollama.new (Scenario.ollama_config "nomic-embed-text" (Some 2) None)) 2).
Proof. reflexivity. Qed.

(** ** OllamaEmbeddingProvider: the coalescer until the queue is empty *)

Lemma ceil_div_0 (b : nat) : (1 <= b)%nat -> ceil_div 0 b = 0%nat.
Proof. intros Hb. unfold ceil_div. apply Nat.div_small. lia. Qed.

Lemma ceil_div_step (n b : nat) :
  (1 <= b)%nat -> (1 <= n)%nat -> ceil_div n b = S (ceil_div (n - b) b).
Proof.
  intros Hb Hn. unfold ceil_div.
  destruct (Nat.le_gt_cases n b) as [Hle|Hgt].
  - replace (n - b)%nat with 0%nat by lia.
    rewrite (Nat.div_small (0 + b - 1) b) by lia.
    symmetry. apply (Nat.div_unique _ _ 1%nat (n - 1)%nat); lia.
  - replace (n + b - 1)%nat with ((n - b + b - 1) + 1 * b)%nat by lia.
    rewrite Nat.div_add by lia. lia.
Qed.

Section DrainFacts.
Import Base Ollama Entry.
Variable ollama : client.
Variable now : nat -> Z.

Lemma settled_handle_imap (f : nat -> PendingRequest -> completion)
    (items : list PendingRequest) :
  (forall i item, settled_handle (f i item) = handle item) ->
  List.map settled_handle (imap f items) = List.map handle items.
Proof.
  revert f. induction items as [|item rest IH]; intros f Hf; [reflexivity|].
  simpl. rewrite Hf. f_equal. apply IH. intros i x. apply Hf.
Qed.

(** One undisturbed run on a provider that is idle with requests queued. *)
Lemma processBatch_run (p : OllamaEmbeddingProvider) :
  processingBatch p = false -> batchQueue p <> [] ->
  let n := Z.to_nat (num_or (batchSize (config p)) 32) in
  let s := processBatch ollama now (fun q => q) (fun q => q) p in
  config (after s) = config p
  /\ batchQueue (after s) = drop n (batchQueue p)
  /\ processingBatch (after s) = false
  /\ requests (after s) = S (requests p)
  /\ List.map settled_handle (completions s) = List.map handle (take n (batchQueue p))
  /\ rescheduled s = negb (List.length (drop n (batchQueue p)) =? 0)%nat.
Proof.
  intros Hidle Hq n s. subst s. unfold processBatch.
  assert (Hin : processBatch_enters p = true).
  { unfold processBatch_enters. rewrite Hidle.
    destruct (batchQueue p); [contradiction|reflexivity]. }
  rewrite Hin, (processBatch_dispatch_takes p Hq). cbv zeta. fold n.
  unfold processBatch_settle. simpl.
  destruct (generateBatchEmbeddingsInternal _ _) as [embeddings|e]; simpl.
  - pose proof (resolve_each_log (config p) embeddings now (take n (batchQueue p)) 0
                  (cache p)) as Hlog.
    destruct (resolve_each _ _ _ _ _ _) as [cache' log]. simpl in *. subst log.
    repeat split. now apply settled_handle_imap.
  - repeat split. rewrite List.map_map. reflexivity.
Qed.

Lemma drain_spec : forall fuel (p : OllamaEmbeddingProvider),
  processingBatch p = false ->
  1 <= num_or (batchSize (config p)) 32 ->
  (List.length (batchQueue p) <= fuel)%nat ->
  let n := Z.to_nat (num_or (batchSize (config p)) 32) in
  let '(p', log) := drain ollama now fuel p in
  batchQueue p' = []
  /\ processingBatch p' = false
  /\ List.map settled_handle log = List.map handle (batchQueue p)
  /\ requests p' = (requests p + ceil_div (List.length (batchQueue p)) n)%nat.
Proof.
  induction fuel as [|fuel IH]; intros p Hidle Hb Hfuel n.
  - simpl. destruct (batchQueue p) eqn:Hq; [|simpl in Hfuel; lia].
    simpl. rewrite ceil_div_0 by lia. repeat split; [assumption | lia].
  - simpl. destruct (batchQueue p) as [|r q] eqn:Hq.
    + unfold processBatch, processBatch_enters. rewrite Hidle, Hq. simpl.
      rewrite Hq, ceil_div_0 by lia. repeat split; [assumption | lia].
    + assert (Hne : batchQueue p <> []) by (rewrite Hq; discriminate).
      destruct (processBatch_run p Hidle Hne)
        as (Hcfg & Hrest & Hidle' & Hreq & Hlog & Hagain).
      fold n in Hrest, Hlog, Hagain. rewrite Hq in Hrest, Hlog, Hagain.
      set (s := processBatch ollama now (fun q => q) (fun q => q) p) in *.
      assert (Hstep : ceil_div (List.length (r :: q)) n
                      = S (ceil_div (List.length (drop n (r :: q))) n)).
      { rewrite length_drop. apply ceil_div_step; [lia | simpl; lia]. }
      rewrite Hagain.
      destruct (drop n (r :: q)) as [|r' q'] eqn:Hdrop; simpl negb; cbv iota.
      * rewrite Hrest, Hidle', Hlog, Hreq, Hstep.
        rewrite take_ge; [|apply (f_equal (@List.length _)) in Hdrop;
                           rewrite length_drop in Hdrop; simpl in *; lia].
        rewrite ceil_div_0 by lia. repeat split. lia.
      * specialize (IH (after s) Hidle').
        rewrite Hcfg in IH. fold n in IH. rewrite Hrest in IH.
        assert (Hshort : (List.length (r' :: q') <= fuel)%nat).
        { rewrite <- Hdrop, length_drop. simpl in *. lia. }
        specialize (IH Hb Hshort).
        destruct (drain ollama now fuel (after s)) as [p' log].
        destruct IH as (Hempty & Hidle'' & Hlog' & Hreq').
        split; [exact Hempty|]. split; [exact Hidle''|]. split.
        -- rewrite map_app, Hlog, Hlog', <- map_app.
           rewrite <- Hdrop, take_drop. reflexivity.
        -- rewrite Hreq', Hreq, Hstep. lia.
Qed.

End DrainFacts.

(** X8. Left alone, the coalescer empties its queue: starting idle, with a
    batch size of at least one, the chain of [processBatch] runs calls back
    every queued request exactly once, in the order the requests were queued,
    and sends one request to Ollama per batch of [batchSize] queued requests,
    whether the requests succeed or fail. *)
Theorem drain_settles_each_request_once (ollama : Ollama.client) (now : nat -> Z)
    (fuel : nat) (p : Ollama.OllamaEmbeddingProvider) :
  Ollama.processingBatch p = false ->
  1 <= num_or (Base.batchSize (Ollama.config p)) 32 ->
  (List.length (Ollama.batchQueue p) <= fuel)%nat ->
  let n := Z.to_nat (num_or (Base.batchSize (Ollama.config p)) 32) in
  let p' := fst (Entry.drain ollama now fuel p) in
  let log := snd (Entry.drain ollama now fuel p) in
  Ollama.batchQueue p' = []
  /\ Ollama.processingBatch p' = false
  /\ List.map settled_handle log = List.map Ollama.handle (Ollama.batchQueue p)
  /\ Ollama.requests p'
     = (Ollama.requests p + ceil_div (List.length (Ollama.batchQueue p)) n)%nat.
Proof.
  intros Hidle Hb Hfuel n p' log. subst p' log.
  pose proof (drain_spec ollama now fuel p Hidle Hb Hfuel) as H.
  cbv zeta in H. fold n in H.
  destruct (Entry.drain ollama now fuel p) as [p' log]. exact H.
Qed.

Lemma drain_settles_witness :
  List.map settled_handle
    (snd (Entry.drain Scenario.flaky Scenario.at_5000 3
            (Scenario.queued (Scenario.ollama_config "nomic-embed-text" (Some 2) None)
               ["a"; "b"; "c"])))
  = [0; 1; 2]%nat.
Proof.
  apply (drain_settles_each_request_once Scenario.flaky Scenario.at_5000 3
           (Scenario.queued (Scenario.ollama_config "nomic-embed-text" (Some 2) None)
              ["a"; "b"; "c"]));
    [reflexivity | simpl; lia | simpl; lia].
Defined.

(** Three requests in batches of two on a client whose first request fails:
    the first two are rejected, the third is resolved, two requests in all. *)
Example drain_three_by_two :
  Entry.drain Scenario.flaky Scenario.at_5000 3
    (Scenario.queued (Scenario.ollama_config "nomic-embed-text" (Some 2) None)
       ["a"; "b"; "c"])
  = (Entry.add_requests
       (Ollama.new (Scenario.ollama_config "nomic-embed-text" (Some 2) None)) 2,
     [Ollama.Rejected 0 (Error "fetch failed");
      Ollama.Rejected 1 (Error "fetch failed");
      Ollama.Resolved 2 (Some [1%Q])]).
Proof. reflexivity. Qed.

(** ** SemanticSearchService: what the ranking keeps and what it leaves out *)

Lemma StronglySorted_take_drop {A : Type} (R : A -> A -> Prop) (l : list A) :
  StronglySorted R l ->
  forall k, Forall (fun a => Forall (R a) (drop k l)) (take k l).
Proof.
  induction 1 as [|x l Hs IH Hx]; intros [|k]; simpl; constructor.
  - destruct k; simpl; [exact Hx|]. now apply Forall_drop.
  - apply IH.
Qed.

Section RankMore.
Import Base Search.
Variable cos_similarity : EmbeddingVector -> EmbeddingVector -> number.

(** The chain returns the head of the sorted qualifying candidates and leaves
    out the tail. *)
Lemma rank_best (source : EmbeddingVector) (keepEmbedding : bool)
    (minSimilarity : Q) (limit : nat) (rows : list MemoryWithEmbedding) :
  let qualifying :=
    List.filter (fun result => number_ge (similarity result) minSimilarity)
      (scored cos_similarity source keepEmbedding rows) in
  let results := rank cos_similarity source keepEmbedding minSimilarity limit rows in
  exists rest,
    Permutation (results ++ rest) qualifying
    /\ Forall (fun r =>
                 Forall (fun r' => (similarity_value r' <= similarity_value r)%Q) rest)
         results
    /\ List.length results = Nat.min limit (List.length qualifying).
Proof.
  intros qualifying results.
  set (sorted := sort by_similarity qualifying).
  assert (Hres : results = take limit sorted) by reflexivity.
  assert (Hperm : Permutation sorted qualifying) by apply sort_perm.
  assert (Hfin : Forall finite qualifying).
  { apply List.Forall_forall. intros r Hr. apply filter_In in Hr as [_ Hge].
    apply number_ge_finite in Hge as (q & Hq & _). now exists q. }
  exists (drop limit sorted). rewrite Hres. split; [|split].
  - now rewrite take_drop.
  - apply StronglySorted_take_drop.
    apply (sort_sorted by_similarity similarity_value finite by_similarity_key).
    exact Hfin.
  - rewrite length_take. now rewrite (Permutation_length Hperm).
Qed.

(** The category and the embeddings of what the chain returns. *)
Lemma rank_rows (source : EmbeddingVector) (keepEmbedding : bool)
    (minSimilarity : Q) (limit : nat) (rows : list MemoryWithEmbedding) :
  Forall (fun r => exists item,
            In item rows
            /\ memory r = row_memory item
            /\ similarity r = cos_similarity source (row_embedding item)
            /\ embedding r = if keepEmbedding then row_embedding item else [])
    (rank cos_similarity source keepEmbedding minSimilarity limit rows).
Proof.
  destruct (rank_ranked cos_similarity source keepEmbedding minSimilarity limit rows)
    as (Hall & _).
  eapply Forall_impl; [exact Hall|]. intros r [Hin _].
  unfold scored in Hin. apply in_map_iff in Hin as (item & <- & Hitem).
  exists item. simpl. auto.
Qed.

Lemma filter_category_In (cat : option string) (rows : list MemoryWithEmbedding)
    (item : MemoryWithEmbedding) :
  In item (filter_category cat rows) ->
  In item rows
  /\ forall c, cat = Some c -> truthy_string c = true -> category (row_memory item) = c.
Proof.
  unfold filter_category. destruct cat as [c|]; [destruct (truthy_string c) eqn:Hc|].
  - intros Hin. apply filter_In in Hin as [Hin Heq]. split; [exact Hin|].
    intros c' [= <-] _. now apply String.eqb_eq.
  - intros Hin. split; [exact Hin|]. intros c' [= <-]. congruence.
  - intros Hin. split; [exact Hin|]. discriminate.
Qed.

End RankMore.

(** X9. What [searchSimilar] returns are the best of the qualifying
    candidates: together with the candidates left out they are all the
    candidates whose similarity is a number [>= minSimilarity], no candidate
    left out is more similar than a returned one, and nothing is left out
    unless [limit] results are returned. *)
Theorem searchSimilar_returns_the_best
    (cos_similarity : Base.EmbeddingVector -> Base.EmbeddingVector -> Search.number)
    (db : Search.MemoryDatabase) (embeddingProvider : Search.EmbeddingProvider)
    (query : string) (options : Search.SemanticSearchOptions)
    (queryEmbedding : Base.EmbeddingVector) :
  Search.generateEmbedding embeddingProvider query = Returned queryEmbedding ->
  let limit_ := Search.default 10%nat (Search.limit options) in
  let qualifying :=
    List.filter
      (fun result =>
         Search.number_ge (Search.similarity result)
           (Search.default (7 # 10)%Q (Search.minSimilarity options)))
      (Search.scored cos_similarity queryEmbedding
         (Search.default false (Search.includeEmbeddings options))
         (Search.filter_category (Search.category_filter options)
            (Search.getMemoriesWithEmbeddings db
               (Search.provider_part embeddingProvider 0)
               (Search.provider_part embeddingProvider 1)))) in
  exists results rest,
    Search.searchSimilar cos_similarity db embeddingProvider query options
    = Returned results
    /\ Permutation (results ++ rest) qualifying
    /\ Forall (fun r =>
                 Forall (fun r' => (similarity_value r' <= similarity_value r)%Q) rest)
         results
    /\ List.length results = Nat.min limit_ (List.length qualifying)
    /\ (rest <> [] -> List.length results = limit_).
Proof.
  intros Hquery limit_ qualifying. unfold Search.searchSimilar. rewrite Hquery.
  destruct (rank_best cos_similarity queryEmbedding
              (Search.default false (Search.includeEmbeddings options))
              (Search.default (7 # 10)%Q (Search.minSimilarity options)) limit_
              (Search.filter_category (Search.category_filter options)
                 (Search.getMemoriesWithEmbeddings db
                    (Search.provider_part embeddingProvider 0)
                    (Search.provider_part embeddingProvider 1))))
    as (rest & Hperm & Hbest & Hlen).
  eexists _, rest. split; [reflexivity|]. fold qualifying in Hperm, Hlen.
  split; [exact Hperm|]. split; [exact Hbest|]. split; [exact Hlen|].
  intros Hrest. apply Permutation_length in Hperm. rewrite length_app in Hperm.
  assert (Hsome : (0 < List.length rest)%nat)
    by (destruct rest; [contradiction | simpl; lia]).
  clearbody qualifying. subst limit_. lia.
Qed.

Lemma searchSimilar_returns_the_best_witness :
  exists results (rest : list Search.SemanticSearchResult),
    Search.searchSimilar Scenario.same_direction (Scenario.five []) Scenario.nomic
      "notes" (Scenario.plain (Some 3%nat) None) = Returned results
    /\ List.length results = 3%nat
    /\ List.length rest = 1%nat.
Proof.
  destruct (searchSimilar_returns_the_best Scenario.same_direction (Scenario.five [])
              Scenario.nomic "notes" (Scenario.plain (Some 3%nat) None) [1%Q] eq_refl)
    as (results & rest & Hrun & Hperm & _ & Hlen & _).
  exists results, rest. split; [exact Hrun|].
  apply Permutation_length in Hperm. rewrite length_app in Hperm.
  match type of Hperm with
  | _ = ?n => assert (Hq : n = 4%nat) by (vm_compute; reflexivity)
  end.
  rewrite Hq in Hperm, Hlen. simpl in Hlen. split; [exact Hlen | lia].
Defined.

(** X10. With a non-empty [category] option every result of [searchSimilar]
    is a stored row of that category; each result carries the similarity of
    the query to its row, and the row's vector when [includeEmbeddings] is
    [true], the empty array otherwise. *)
Theorem searchSimilar_results_are_rows
    (cos_similarity : Base.EmbeddingVector -> Base.EmbeddingVector -> Search.number)
    (db : Search.MemoryDatabase) (embeddingProvider : Search.EmbeddingProvider)
    (query : string) (options : Search.SemanticSearchOptions)
    (results : list Search.SemanticSearchResult) :
  Search.searchSimilar cos_similarity db embeddingProvider query options
  = Returned results ->
  exists queryEmbedding,
    Search.generateEmbedding embeddingProvider query = Returned queryEmbedding
    /\ Forall (fun r => exists item,
                 In item (Search.getMemoriesWithEmbeddings db
                            (Search.provider_part embeddingProvider 0)
                            (Search.provider_part embeddingProvider 1))
                 /\ Search.memory r = Search.row_memory item
                 /\ Search.similarity r
                    = cos_similarity queryEmbedding (Search.row_embedding item)
                 /\ Search.embedding r
                    = (if Search.default false (Search.includeEmbeddings options)
                       then Search.row_embedding item else [])
                 /\ forall c, Search.category_filter options = Some c ->
                      truthy_string c = true ->
                      Search.category (Search.memory r) = c)
         results.
Proof.
  unfold Search.searchSimilar.
  destruct (Search.generateEmbedding embeddingProvider query) as [queryEmbedding|e];
    [|discriminate].
  intros [= <-]. exists queryEmbedding. split; [reflexivity|].
  eapply Forall_impl; [apply rank_rows|].
  intros r (item & Hin & Hmem & Hsim & Hemb).
  apply filter_category_In in Hin as [Hin Hcat].
  exists item. rewrite Hmem. auto 6.
Qed.

Lemma searchSimilar_results_are_rows_witness :
  Forall (fun r => Search.category (Search.memory r) = "facts")
    (match Search.searchSimilar Scenario.same_direction (Scenario.five [])
             Scenario.nomic "notes"
             {| Search.limit := None; Search.minSimilarity := None;
                Search.category_filter := Some "facts";
                Search.includeEmbeddings := None |} with
     | Returned results => results
     | Thrown _ => []
     end).
Proof.
  destruct (Search.searchSimilar _ _ _ _ _) as [results|e] eqn:Hrun; [|constructor].
  destruct (searchSimilar_results_are_rows _ _ _ _ _ _ Hrun) as (v & _ & Hall).
  eapply Forall_impl; [exact Hall|].
  intros r (item & _ & _ & _ & _ & Hcat). now apply Hcat.
Defined.

(** ** SemanticSearchService: hybrid search with any weights *)

Section HybridMore.
Import Base Search.
Local Open Scope Q_scope.

Variable semanticResults : list SemanticSearchResult.
Variable textResults : list Memory.
Variable semanticScoreMap : gmap string number.
Variable textScoreMap : gmap string Q.
Variables textWeight semanticWeight : Q.
Variables (includeEmbeddings : bool) (now : Z).



End HybridMore.



(** A record updated a day ago, with nothing else to its score. *)
Example hybrid_entry_day_old :
  Qred (Search.combinedScore
          (Search.hybrid_entry [] [Scenario.note "m1" 0] ∅ ∅ (3 # 10) (7 # 10)
             true false 86400000 "m1"))
  = (29 # 300)%Q.
Proof. vm_compute. reflexivity. Qed.

(** ** SemanticSearchService: what the clusters are made of *)

Lemma all_member_ids_app (cs : list Search.Cluster) (c : Search.Cluster) :
  all_member_ids (cs ++ [c]) = all_member_ids cs ++ member_ids c.
Proof. unfold all_member_ids. rewrite flat_map_app. simpl. now rewrite app_nil_r. Qed.


Section ClusterMore.
Import Base Search.
Variable cos_similarity : EmbeddingVector -> EmbeddingVector -> number.
Variable threshold : Q.
Variable minClusterSize : Z.

(** Every member a scan appends is a row it went over, scored against the
    seed. *)
Lemma cluster_scan_members (all : list MemoryWithEmbedding) (item : MemoryWithEmbedding) :
  forall others processed members total processed' members' total',
    (forall other, In other others -> In other all) ->
    cluster_scan cos_similarity item threshold others processed members total
    = (processed', members', total') ->
    exists added,
      members' = members ++ added
      /\ Forall (scored_against cos_similarity all item) added.
Proof.
  induction others as [|other rest IH];
    intros processed members total processed' members' total' Hsub Hscan;
    simpl in Hscan.
  - injection Hscan as <- <- <-. exists []. now rewrite app_nil_r.
  - assert (Hrest : forall o, In o rest -> In o all) by (intros o Ho; apply Hsub; now right).
    destruct (String.eqb _ _ || bool_decide _); [now apply IH in Hscan|].
    destruct (cos_similarity (row_embedding item) (row_embedding other)) as [|sim] eqn:Hsim;
      [now apply IH in Hscan|].
    destruct (Qle_bool threshold sim); [|now apply IH in Hscan].
    apply IH in Hscan as (added & -> & Hadded); [|exact Hrest].
    eexists (_ :: added). rewrite <- app_assoc. split; [reflexivity|].
    constructor; [|exact Hadded].
    exists other. simpl. split; [apply Hsub; now left|]. now rewrite Hsim.
Qed.

Lemma cluster_loop_seeded (all : list MemoryWithEmbedding) :
  forall items processed clusters,
    (forall item, In item items -> In item all) ->
    Forall (seeded cos_similarity all) clusters ->
    Forall (seeded cos_similarity all)
      (cluster_loop cos_similarity all threshold minClusterSize items processed clusters).
Proof.
  induction items as [|item rest IH]; intros processed clusters Hsub Hall; simpl;
    [exact Hall|].
  assert (Hrest : forall i, In i rest -> In i all) by (intros i Hi; apply Hsub; now right).
  case_bool_decide; [now apply IH|].
  destruct (cluster_scan _ _ _ _ _ _ _) as [[processed' members] total] eqn:Hscan.
  apply (cluster_scan_members all) in Hscan as (added & -> & Hadded); [|auto].
  apply IH; [exact Hrest|].
  destruct (_ >=? _)%Z; [|exact Hall].
  apply Forall_app. split; [exact Hall|]. constructor; [|constructor].
  exists item, added. split; [apply Hsub; now left|]. split; [reflexivity|exact Hadded].
Qed.

(** When single records count as clusters, whatever is marked processed, and
    every record still to be visited, ends up in a cluster. *)
Lemma cluster_loop_covers (all : list MemoryWithEmbedding) :
  minClusterSize <= 1 ->
  forall items processed clusters,
    (forall x, x ∈ processed -> x ∈ all_member_ids clusters) ->
    forall x,
      x ∈ processed \/ x ∈ List.map (fun item => id (row_memory item)) items ->
      x ∈ all_member_ids
            (cluster_loop cos_similarity all threshold minClusterSize items
               processed clusters).
Proof.
  intros Hmin. induction items as [|item rest IH]; intros processed clusters Hinv x Hx;
    simpl.
  - destruct Hx as [Hx|Hx]; [now apply Hinv | inversion Hx].
  - case_bool_decide as Hproc.
    + apply IH; [exact Hinv|]. destruct Hx as [Hx|Hx]; [now left|].
      simpl in Hx. apply elem_of_cons in Hx as [->|Hx]; [now left | now right].
    + destruct (cluster_scan _ _ _ _ _ _ _) as [[processed' members] total] eqn:Hscan.
      apply cluster_scan_spec in Hscan as (added & -> & _ & _ & Hproc' & _ & _).
      destruct (Z.geb_spec (Z.of_nat (List.length
                  ([{| memory := row_memory item; similarity := Fin 1;
                       embedding := row_embedding item |}] ++ added))) minClusterSize)
        as [_|Hsmall]; [|simpl in Hsmall; lia].
      apply IH.
      * intros y Hy. rewrite all_member_ids_app. unfold member_ids. simpl.
        apply elem_of_app.
        apply elem_of_union in Hy as [Hy|Hy].
        -- apply elem_of_singleton in Hy as ->. right. apply elem_of_cons. now left.
        -- apply Hproc' in Hy as [Hy|Hy]; [left; now apply Hinv|].
           right. apply elem_of_cons. now right.
      * destruct Hx as [Hx|Hx].
        -- left. apply elem_of_union. right. apply Hproc'. now left.
        -- simpl in Hx. apply elem_of_cons in Hx as [->|Hx]; [|now right].
           left. apply elem_of_union. left. now apply elem_of_singleton.
Qed.

End ClusterMore.

(** X13. Every cluster of [clusterMemories] starts with a stored row, its
    seed, and every other member is a stored row recorded with the
    similarity of its vector to the seed's vector: members are compared with
    the seed only, never with one another. *)
Theorem clusterMemories_members_scored_against_seed
    (cos_similarity : Base.EmbeddingVector -> Base.EmbeddingVector -> Search.number)
    (db : Search.MemoryDatabase) (embeddingProvider : Search.EmbeddingProvider)
    (threshold : option Q) (minClusterSize : option Z) :
  let rows :=
    Search.getMemoriesWithEmbeddings db
      (Search.provider_part embeddingProvider 0)
      (Search.provider_part embeddingProvider 1) in
  Forall (fun c =>
            exists item rest,
              In item rows
              /\ Search.cluster c
                 = {| Search.memory := Search.row_memory item;
                      Search.similarity := Search.Fin 1;
                      Search.embedding := Search.row_embedding item |} :: rest
              /\ Forall (fun r =>
                           exists other,
                             In other rows
                             /\ Search.memory r = Search.row_memory other
                             /\ Search.embedding r = Search.row_embedding other
                             /\ Search.similarity r
                                = cos_similarity (Search.row_embedding item)
                                    (Search.row_embedding other))
                   rest)
    (Search.clusterMemories cos_similarity db embeddingProvider threshold minClusterSize).
Proof.
  intros rows. unfold Search.clusterMemories. fold rows.
  eapply Permutation_Forall; [symmetry; apply sort_perm|].
  apply (cluster_loop_seeded cos_similarity); [auto | constructor].
Qed.

(** X14. With [minClusterSize] at most one nothing is dropped: the record
    ids found in the clusters are exactly the ids of the stored rows, each
    in one cluster only. *)
Theorem clusterMemories_covers_every_row
    (cos_similarity : Base.EmbeddingVector -> Base.EmbeddingVector -> Search.number)
    (db : Search.MemoryDatabase) (embeddingProvider : Search.EmbeddingProvider)
    (threshold : option Q) (minClusterSize : option Z) :
  Search.default 2 minClusterSize <= 1 ->
  let rows :=
    Search.getMemoriesWithEmbeddings db
      (Search.provider_part embeddingProvider 0)
      (Search.provider_part embeddingProvider 1) in
  let clusters :=
    Search.clusterMemories cos_similarity db embeddingProvider threshold minClusterSize in
  NoDup (all_member_ids clusters)
  /\ forall x,
       x ∈ all_member_ids clusters
       <-> x ∈ List.map (fun item => Search.id (Search.row_memory item)) rows.
Proof.
  intros Hmin rows clusters. unfold Search.clusterMemories in clusters. fold rows in clusters.
  set (built := Search.cluster_loop cos_similarity rows
                  (Search.default (8 # 10)%Q threshold) (Search.default 2 minClusterSize)
                  rows ∅ []) in clusters.
  assert (Hperm : Permutation (all_member_ids clusters) (all_member_ids built)).
  { unfold all_member_ids. apply Permutation_flat_map, sort_perm. }
  destruct (cluster_loop_spec cos_similarity (Search.default (8 # 10)%Q threshold)
              (Search.default 2 minClusterSize) rows rows ∅ [])
    as [Hnodup _]; [constructor | intros x Hx; inversion Hx | constructor |].
  fold built in Hnodup.
  split; [now rewrite Hperm|].
  intros x. rewrite Hperm. split.
  - intros Hx.
    pose proof (cluster_loop_seeded cos_similarity (Search.default (8 # 10)%Q threshold)
                  (Search.default 2 minClusterSize) rows rows ∅ []
                  ltac:(auto) ltac:(constructor)) as Hseeded.
    fold built in Hseeded. rewrite List.Forall_forall in Hseeded.
    apply list_elem_of_In, in_flat_map in Hx as (c & Hc & Hx).
    destruct (Hseeded c Hc) as (item & rest & Hitem & Hcluster & Hrest).
    unfold member_ids in Hx. rewrite Hcluster in Hx. simpl in Hx.
    apply list_elem_of_In, in_map_iff.
    destruct Hx as [<-|Hx]; [now exists item|].
    apply in_map_iff in Hx as (r & <- & Hr).
    rewrite List.Forall_forall in Hrest.
    destruct (Hrest r Hr) as (other & Hother & Hmem & _).
    exists other. now rewrite Hmem.
  - intros Hx. apply (cluster_loop_covers cos_similarity); [exact Hmin | | now right].
    intros y Hy. inversion Hy.
Qed.

Lemma clusterMemories_covers_witness :
  "m3" ∈ all_member_ids
           (Search.clusterMemories Scenario.same_direction (Scenario.five [])
              Scenario.nomic None (Some 1)).
Proof.
  apply (clusterMemories_covers_every_row Scenario.same_direction (Scenario.five [])
           Scenario.nomic None (Some 1)).
  - simpl. lia.
  - apply list_elem_of_In. simpl. tauto.
Defined.



(** ** The provider and model the service files embeddings under *)

Lemma split_no_colon (s : string) :
  has_colon s = false -> Search.split ":" s = [s].
Proof.
  induction s as [|c s IH]; simpl; [reflexivity|].
  intros H. apply orb_false_iff in H as [Hc Hs]. rewrite Hc, (IH Hs). reflexivity.
Qed.

Lemma split_at_colon (m rest : string) :
  has_colon m = false ->
  Search.split ":" (m +:+ ":" +:+ rest) = m :: Search.split ":" rest.
Proof.
  induction m as [|c m IH]; intros H.
  - reflexivity.
  - simpl in H. apply orb_false_iff in H as [Hc Hm].
    rewrite append_String. simpl. rewrite Hc, (IH Hm). reflexivity.
Qed.

(** X16. For an Ollama provider the service reads the provider as ["ollama"]
    and the model as the configured model name up to its first colon: the
    whole name when it holds no colon, and the name without its tag for a
    tagged model such as [llama3:8b]. *)
Theorem provider_part_of_ollama_name (p : Ollama.OllamaEmbeddingProvider)
    (service : Search.EmbeddingProvider) :
  Search.name service = Entry.name p ->
  Search.provider_part service 0 = Some "ollama"
  /\ (has_colon (Base.model (Ollama.config p)) = false ->
      Search.provider_part service 1 = Some (Base.model (Ollama.config p)))
  /\ (forall m tag,
        Base.model (Ollama.config p) = m +:+ ":" +:+ tag ->
        has_colon m = false ->
        Search.provider_part service 1 = Some m).
Proof.
  intros Hname. unfold Search.provider_part. rewrite Hname. unfold Entry.name.
  change ("ollama:" +:+ Base.model (Ollama.config p))
    with ("ollama" +:+ ":" +:+ Base.model (Ollama.config p)).
  rewrite split_at_colon by reflexivity.
  split; [reflexivity|]. split.
  - intros Hm. now rewrite split_no_colon.
  - intros m tag -> Hm. now rewrite split_at_colon.
Qed.

Lemma provider_part_witness :
  Search.provider_part
    {| Search.name := "ollama:llama3:8b"; Search.dimensions := 4096;
       Search.generateEmbedding := fun _ => Returned [1%Q] |} 1
  = Some "llama3".
Proof.
  apply (provider_part_of_ollama_name
           (Ollama.new (Scenario.ollama_config "llama3:8b" None None))
           {| Search.name := "ollama:llama3:8b"; Search.dimensions := 4096;
              Search.generateEmbedding := fun _ => Returned [1%Q] |}
           eq_refl) with (tag := "8b"); reflexivity.
Defined.

(** ** OllamaEmbeddingProvider: a coalesced request, start to end *)

(** X17. A request that goes through the coalescer alone: on a provider with
    a cache, batching on and nothing queued or in flight, a text that misses
    the cache is queued; the next [processBatch] run sends one request for
    it and, if Ollama answers, resolves the caller with the vector; and from
    then until the TTL runs out [generateEmbedding] answers the same text
    with that vector from the cache. *)
Theorem generateEmbedding_batched_then_cached (ollama ollama' : Ollama.client)
    (now later now' later' : Z) (at_ : nat -> Z) (h h' : nat)
    (p : Ollama.OllamaEmbeddingProvider) (text : string)
    (c : Base.EmbeddingCache) (vs : list Base.EmbeddingVector) :
  Ollama.cache p = Some c ->
  Ollama.usesBatching (Ollama.config p) = true ->
  Ollama.batchQueue p = [] ->
  Ollama.processingBatch p = false ->
  (forall w, fst (Cache.get c (Base.getCacheKey (Ollama.config p) text) now)
             <> Some (Some w)) ->
  Ollama.generateBatchEmbeddingsInternal [text] (ollama (Ollama.requests p) [text])
  = Returned vs ->
  now' - at_ 0%nat <= Cache.ttl c ->
  exists v p1 p2,
    vs = [v]
    /\ Entry.generateEmbedding ollama now later h p text = Some (Entry.Pending h, p1)
    /\ Entry.drain ollama at_ 1 p1 = (p2, [Ollama.Resolved h (Some v)])
    /\ Ollama.requests p2 = S (Ollama.requests p)
    /\ Entry.generateEmbedding ollama' now' later' h' p2 text
       = Some (Entry.Settled (Returned v), p2).
Proof.
  intros Hc Hbatching Hq Hidle Hmiss Hcall Hfresh.
  pose proof Hcall as Hlen.
  apply generateBatchEmbeddingsInternal_returned in Hlen as [Hlen _].
  destruct vs as [|v [|? ?]]; try discriminate Hlen. clear Hlen.
  destruct (usesBatching_batchSize _ Hbatching) as (n & Hn & Hbig & Hnum).
  pose proof (get_keeps_ttl c (Base.getCacheKey (Ollama.config p) text) now) as Httl.
  exists v. unfold Entry.generateEmbedding, Base.getCachedEmbedding. rewrite Hc.
  destruct (Cache.get c (Base.getCacheKey (Ollama.config p) text) now)
    as [cached c'] eqn:Hget.
  simpl in Hmiss, Httl.
  assert (Hgo : forall A (hit : Base.EmbeddingVector -> A) (miss : A),
             match cached with Some (Some vector) => hit vector | _ => miss end = miss).
  { intros A hit miss. destruct cached as [[w|]|]; [|reflexivity..].
    exfalso. now apply (Hmiss w). }
  rewrite Hgo. simpl Ollama.config. rewrite Hbatching.
  eexists _, _. split; [reflexivity|]. split; [reflexivity|].
  assert (Hrun : Entry.drain ollama at_ 1
            (Ollama.enqueue (Entry.set_cache p (Some c'))
               {| Ollama.text := text; Ollama.handle := h |})
          = ({| Ollama.config := Ollama.config p;
                Ollama.cache :=
                  Some (Cache.set c' (Base.getCacheKey (Ollama.config p) text)
                          (Some v) (at_ 0%nat));
                Ollama.batchQueue := [];
                Ollama.processingBatch := false;
                Ollama.requests := S (Ollama.requests p) |},
             [Ollama.Resolved h (Some v)])).
  { unfold Entry.drain, Ollama.processBatch, Ollama.processBatch_enters,
      Ollama.processBatch_dispatch, Ollama.enqueue, Entry.set_cache.
    cbn [Ollama.config Ollama.cache Ollama.batchQueue Ollama.processingBatch
         Ollama.requests].
    rewrite Hidle, Hq, Hnum. cbn [app List.length Nat.eqb orb negb].
    unfold splice0. destruct (Z.to_nat n) as [|[|k]] eqn:Hk; [lia..|].
    cbn [firstn skipn List.map Ollama.text]. unfold Ollama.issued.
    cbn [Ollama.config Ollama.cache Ollama.batchQueue Ollama.processingBatch
         Ollama.requests].
    rewrite Hcall. reflexivity. }
  split; [exact Hrun|]. split; [reflexivity|].
  eapply generateEmbedding_hit.
  - reflexivity.
  - simpl. apply set_lookup.
  - reflexivity.
  - simpl. lia.
Qed.

Lemma generateEmbedding_batched_witness :
  exists p2,
    Entry.drain Scenario.steady Scenario.at_5000 1
      (Ollama.enqueue (Ollama.new Scenario.balanced)
         {| Ollama.text := "hello"; Ollama.handle := 7 |})
    = (p2, [Ollama.Resolved 7 (Some [1%Q])])
    /\ Entry.generateEmbedding Scenario.flaky 6000 6000 8 p2 "hello"
       = Some (Entry.Settled (Returned [1%Q]), p2).
Proof.
  destruct (generateEmbedding_batched_then_cached Scenario.steady Scenario.flaky
              1000 1000 6000 6000 Scenario.at_5000 7 8
              (Ollama.new Scenario.balanced) "hello" (Cache.new None None) [[1%Q]])
    as (v & p1 & p2 & Hv & Hfirst & Hdrain & _ & Hagain);
    [reflexivity | reflexivity | reflexivity | reflexivity | discriminate
    | reflexivity | vm_compute; discriminate |].
  injection Hv as <-. injection Hfirst as <-.
  exists p2. split; [exact Hdrain | exact Hagain].
Defined.

(** ** OllamaEmbeddingProvider: a direct request that misses the cache *)

(** X18. Without batching, a text that misses the cache costs at least one
    request and at most [maxRetries || 3]; nothing is queued; and if the call
    fails, every attempt was used, the error is the one [retryWithBackoff]
    wraps, and the cache holds what the lookup left. *)
Theorem generateEmbedding_direct_within_retries (ollama : Ollama.client)
    (now later : Z) (h : nat) (p : Ollama.OllamaEmbeddingProvider) (text : string) :
  let m := num_or (Base.maxRetries (Ollama.config p)) 3 in
  let lookup := Base.getCachedEmbedding (Ollama.config p) (Ollama.cache p) text now in
  Ollama.usesBatching (Ollama.config p) = false ->
  (forall w, fst lookup <> Some (Some w)) ->
  1 <= m ->
  exists o p',
    Entry.generateEmbedding ollama now later h p text = Some (Entry.Settled o, p')
    /\ (Ollama.requests p < Ollama.requests p' <= Ollama.requests p + Z.to_nat m)%nat
    /\ Ollama.batchQueue p' = Ollama.batchQueue p
    /\ forall e, o = Thrown e ->
         Ollama.requests p' = (Ollama.requests p + Z.to_nat m)%nat
         /\ Ollama.cache p' = snd lookup
         /\ exists last,
              e = Error ("Operation failed after " +:+ show_Z m +:+ " attempts: "
                         +:+ message last).
Proof.
  intros m lookup Hdirect Hmiss Hm. unfold Entry.generateEmbedding. fold lookup.
  destruct lookup as [cached cache'] eqn:Hlookup. simpl in Hmiss.
  assert (Hgo : forall A (hit : Base.EmbeddingVector -> A) (miss : A),
             match cached with Some (Some vector) => hit vector | _ => miss end = miss).
  { intros A hit miss. destruct cached as [[w|]|]; [|reflexivity..].
    exfalso. now apply (Hmiss w). }
  rewrite Hgo. simpl Ollama.config. rewrite Hdirect. fold m.
  unfold Base.retryWithBackoff, Base.enough_fuel.
  destruct (retry_loop_attempts
              (fun k => Entry.generateSingleEmbedding
                          (ollama (Ollama.requests (Entry.set_cache p cache') + k)%nat
                             [text]))
              m 1000 (Z.to_nat (m - 1)) (S (Z.to_nat m)) 1 None 0%nat [])
    as (r & Hr & Hcalls & Hres); [lia..|].
  rewrite Hr.
  destruct Hres as [(v & _ & Hret)|(e & _ & Hc & Hthrown)].
  - rewrite Hret. eexists _, _. split; [reflexivity|]. simpl.
    split; [lia|]. split; [reflexivity|]. discriminate.
  - rewrite Hthrown. simpl. eexists _, _. split; [reflexivity|]. simpl.
    split; [lia|]. split; [reflexivity|].
    intros e' [= <-]. split; [lia|]. split; [reflexivity|]. now exists e.
Qed.

Lemma generateEmbedding_direct_witness :
  exists o p',
    Entry.generateEmbedding Scenario.flaky 1000 2000 0
      (Ollama.new (Scenario.ollama_config "nomic-embed-text" None (Some true))) "hello"
    = Some (Entry.Settled o, p')
    /\ (Ollama.requests p' <= 3)%nat.
Proof.
  destruct (generateEmbedding_direct_within_retries Scenario.flaky 1000 2000 0
              (Ollama.new (Scenario.ollama_config "nomic-embed-text" None (Some true)))
              "hello")
    as (o & p' & Hrun & Hreq & _); [reflexivity | discriminate | simpl; lia |].
  exists o, p'. split; [exact Hrun|]. simpl in Hreq. lia.
Defined.

(** ** MemoryEmbeddingCache: what a read changes *)

(** X19. A [get] changes the cache only by dropping the expired entry it was
    asked for: every other key reads as before, a hit leaves the cache as it
    was, after a miss the key is absent, the cache never grows, and asking
    again at the same time gives the same answer and changes nothing more. *)
Theorem get_drops_only_the_expired {V : Type} (c : Cache.MemoryEmbeddingCache V)
    (key : string) (now : Z) :
  let r := fst (Cache.get c key now) in
  let c' := snd (Cache.get c key now) in
  (forall k, k <> key ->
     Cache.map_get k (Cache.cache c') = Cache.map_get k (Cache.cache c))
  /\ (forall v, r = Some v -> c' = c)
  /\ (r = None -> Cache.map_get key (Cache.cache c') = None)
  /\ Cache.size c' <= Cache.size c
  /\ Cache.get c' key now = (r, c').
Proof.
  unfold Cache.get, Cache.size.
  destruct (Cache.map_get key (Cache.cache c)) as [cached|] eqn:Hget.
  - destruct (now - Cache.timestamp cached >? Cache.ttl c) eqn:Hexpired; simpl.
    + split; [intros k Hk; apply map_get_delete_other; congruence|].
      split; [discriminate|]. split; [intros _; apply map_get_delete_same|].
      split; [pose proof (List.filter_length_le
                            (fun p => negb (String.eqb (fst p) key)) (Cache.cache c));
              unfold Cache.map_delete; lia|].
      now rewrite map_get_delete_same.
    + split; [reflexivity|]. split; [reflexivity|]. split; [discriminate|].
      split; [lia|]. now rewrite Hget, Hexpired.
  - simpl. split; [reflexivity|]. split; [reflexivity|]. split; [intros _; exact Hget|].
    split; [lia|]. now rewrite Hget.
Qed.

(** An entry written at time 0 and read after the default TTL of an hour is
    gone, and the cache is empty again. *)
Example get_expired_entry_is_dropped :
  Cache.get Scenario.warm (Base.getCacheKey Scenario.balanced "hello") 3600001
  = (None, Cache.new None None).
Proof. reflexivity. Qed.
